(** * replay_computation: replaying recorded XLA computations

    A shallow embedding of [xla/tools/replay_computation.cc]: the functions
    [ReplayComputation] and [RealMain], run against an XLA client that is
    only known through its interface.

    The tool is sequential except for one thread-pool thread that feeds the
    infeed queue while the main thread executes.  The embedding writes the
    main thread in a state monad over a [World] (the client's state, the
    thread pool's queue, the trace of everything done so far) and keeps the
    closure handed to the pool as a small program tree, so that the pool
    thread can be advanced a few calls at a time between two calls of the
    main thread.  How many calls that is, is read from a schedule carried by
    the world: a theorem for every world is a theorem for every
    interleaving of the calls of the two threads.

    What is taken for granted:
    - a call into the client library is atomic and returns (a computation
      that waits for ever on an infeed that never comes is outside the
      model);
    - the [int] options are integers: the only arithmetic on them is the
      counting of the two loops, which stays below the option it counts
      to;
    - LOG(INFO) lines and the release of the argument handles when
      [ReplayComputation] returns leave no trace. *)

From Stdlib Require Import List ZArith String Bool Lia DecimalString.
Import ListNotations.
Local Open Scope string_scope.
Local Open Scope list_scope.
Local Open Scope Z_scope.

Set Implicit Arguments.

(** ** The types of the XLA libraries

    None of these is declared in this file of the tool: they are the opaque
    value types of the client library. *)

Class XlaTypes : Type := {
  Shape : Type;             (* xla::Shape *)
  Literal : Type;           (* xla::Literal *)
  LiteralProto : Type;      (* xla::LiteralProto *)
  GlobalData : Type;        (* xla::GlobalData, a handle to data on the server *)
  Status : Type;            (* a tensorflow::Status that is not OK *)
  Client : Type;            (* xla::Client* *)
  ExecutionOptions : Type;  (* xla::ExecutionOptions *)
  ExecutionProfile : Type   (* xla::ExecutionProfile *)
}.

Section DataModel.
Context {xla_types : XlaTypes}.

(** [StatusOr<T>]: a value, or a status that is not OK. *)
Inductive StatusOr (A : Type) : Type :=
| Ok (a : A)
| Err (s : Status).

(** The protocol buffers of hlo.proto, with the fields this tool reads. *)
Record HloInstructionProto : Type := {
  opcode : string;
  shape : Shape
}.

Record HloComputationProto : Type := {
  instructions : list HloInstructionProto
}.

(** Modelled from the spec: the declared parameters of the program
    ([ProgramShape] in xla_data.proto) are not read anywhere in the tool;
    they are kept so that "the program's declared parameter count" can be
    named. *)
Record ProgramShape : Type := {
  parameters : list Shape
}.

Record HloModuleProto : Type := {
  name : string;
  computations : list HloComputationProto;
  program_shape : ProgramShape
}.

Record HloProto : Type := {
  hlo_module : HloModuleProto
}.

(** [SnapshotResult] is the optional field [result]: [has_result()] is
    [SnapshotResult <> None]. *)
Record HloSnapshot : Type := {
  hlo : HloProto;
  arguments : list LiteralProto;
  SnapshotResult : option LiteralProto
}.

(** [XlaComputation]: what [Client::LoadSnapshot] hands back. *)
Record XlaComputation : Type := {
  proto : HloModuleProto
}.

(** Command-line options of the tool (struct Options). *)
Record Options : Type := {
  fake_infeed_shape : string;
  generate_fake_infeed : bool;
  num_infeeds : Z;
  use_fake_data : bool;
  print_result : bool;
  num_runs : Z;
  xla_hlo_profile_last_run : bool
}.

Definition default_Options : Options :=
  {| fake_infeed_shape := "";
     generate_fake_infeed := false;
     num_infeeds := 10;
     use_fake_data := false;
     print_result := true;
     num_runs := 1;
     xla_hlo_profile_last_run := false |}.

(** ** Calls into the client library

    Every call that reaches the client, the file system or a generator of
    fake data is a [Call]; [Reply c] is the type of its answer.  The
    [...OrDie] helpers answer [None] when they abort the process. *)
Inductive Call : Type :=
| LocalClientOrDie
| DestroyLocalInstances
| ReadBinaryProto (fname : string)
| LoadSnapshot (client : Client) (module : HloSnapshot)
| MakeFakeArgumentsOrDie (computation : XlaComputation) (client : Client)
| TransferToServer (client : Client) (literal : Literal)
| MakeFakeLiteral (shape : Shape)
| TransferToInfeed (client : Client) (literal : Literal)
| ExecuteAndTransfer (client : Client) (computation : XlaComputation)
    (arguments : list GlobalData) (execution_options : ExecutionOptions)
| Execute (client : Client) (computation : XlaComputation)
    (arguments : list GlobalData) (execution_options : ExecutionOptions).

Definition Reply (c : Call) : Type :=
  match c with
  | LocalClientOrDie => option Client
  | DestroyLocalInstances => unit
  | ReadBinaryProto _ => StatusOr HloSnapshot
  | LoadSnapshot _ _ => StatusOr XlaComputation
  | MakeFakeArgumentsOrDie _ _ => option (list GlobalData)
  | TransferToServer _ _ => StatusOr GlobalData
  | MakeFakeLiteral _ => StatusOr Literal
  | TransferToInfeed _ _ => StatusOr unit
  | ExecuteAndTransfer _ _ _ _ => StatusOr (Literal * ExecutionProfile)
  | Execute _ _ _ _ => StatusOr (GlobalData * ExecutionProfile)
  end.

(** ** Closures run by the thread pool

    A closure is a tree of calls: it is done, it fails a fatal check, or it
    makes a call and goes on with the answer. *)
Inductive Thread : Type :=
| TDone
| TFatal
| TCall (c : Call) (k : Reply c -> Thread).

(** ** What the process prints

    One constructor per format string of [RealMain]. *)
Inductive Stream : Type := stdout | stderr.

Inductive Line : Type :=
| NotSnapshotLine (arg : string) (status : string)
    (* "%s: is not HloSnapshot: %s.\n" *)
| ErrorLine (arg : string) (status : string)
    (* "%s: error: %s\n" *)
| ResultLine (arg : string) (module_name : string) (shape_str : string)
    (literal_str : string)
    (* "%s: %s :: %s:%s\n" *)
| WasLine (shape_str : string) (literal_str : string).
    (* "was %s:%s\n" *)

Definition newline : string := String (Ascii.ascii_of_nat 10) EmptyString.

Definition format_line (l : Line) : string :=
  (match l with
   | NotSnapshotLine arg status =>
       arg ++ ": is not HloSnapshot: " ++ status ++ "." ++ newline
   | ErrorLine arg status =>
       arg ++ ": error: " ++ status ++ newline
   | ResultLine arg module_name shape_str literal_str =>
       arg ++ ": " ++ module_name ++ " :: " ++ shape_str ++ ":" ++ literal_str
           ++ newline
   | WasLine shape_str literal_str =>
       "was " ++ shape_str ++ ":" ++ literal_str ++ newline
   end)%string.

(** ** The trace *)
Inductive Tid : Type := MainThread | InfeedThread.

Inductive Event : Type :=
| EvCall (tid : Tid) (c : Call) (r : Reply c)
| EvSchedule (closure : Thread)
| EvPrint (stream : Stream) (line : Line).

End DataModel.

Arguments Ok {_ A} a.
Arguments Err {_ A} s.

(** ** The library functions that do not touch the client *)
Class XlaLib `{XlaTypes} : Type := {
  ParseShapeString : string -> StatusOr Shape;       (* ShapeUtil:: *)
  HumanString : Shape -> string;                     (* ShapeUtil:: *)
  CreateFromProto : LiteralProto -> StatusOr Literal;  (* Literal:: *)
  Literal_shape : Literal -> Shape;                  (* Literal::shape() *)
  Literal_ToString : Literal -> string;              (* Literal::ToString() *)
  LiteralProto_shape : LiteralProto -> Shape;        (* LiteralProto::shape() *)
  Status_ToString : Status -> string;                (* Status::ToString() *)
  Shape_default : Shape;                             (* Shape() *)
  HloOpcodeString_kInfeed : string;    (* HloOpcodeString(HloOpcode::kInfeed) *)
  CreateDefaultExecutionOptions : ExecutionOptions;
  set_xla_hlo_profile : bool -> ExecutionOptions -> ExecutionOptions
}.

(** ** The client, as a state machine

    [handle c b] is the answer of the outside world to call [c] in state
    [b], and the state after it. *)
Class Backend `{XlaTypes} : Type := {
  BackendState : Type;
  handle : forall c : Call, BackendState -> Reply c * BackendState
}.

(** ** The world and the monad of the main thread *)
Section Machine.
Context {xla_types : XlaTypes} {xla_backend : Backend}.

Record World : Type := {
  backend : BackendState;    (* the state behind the client *)
  pool : list Thread;        (* closures scheduled on the one pool thread *)
  schedule : list nat;       (* pool-thread steps before each main call *)
  trace : list Event         (* everything done so far, oldest first *)
}.

(** A computation of the main thread returns, or the process is aborted by
    a failed fatal check (CHECK, TF_CHECK_OK, ...OrDie) of either thread. *)
Inductive Outcome (A : Type) : Type :=
| Returned (a : A)
| Aborted.
Arguments Aborted {A}.

Definition M (A : Type) : Type := World -> Outcome A * World.

Definition ret {A} (a : A) : M A := fun w => (Returned a, w).

Definition bind {A B} (m : M A) (f : A -> M B) : M B :=
  fun w =>
    match m w with
    | (Returned a, w') => f a w'
    | (Aborted, w') => (Aborted, w')
    end.

(** A fatal check that failed on the main thread. *)
Definition die {A} : M A := fun w => (Aborted, w).

(** The pool thread makes at most [n] steps on the queue [q]: a finished
    closure is dropped, a call is answered by the client.  The first
    component is [false] when a fatal check failed. *)
Fixpoint pool_run (n : nat) (b : BackendState) (q : list Thread)
  : bool * BackendState * list Thread * list Event :=
  match n with
  | O => (true, b, q, [])
  | S n' =>
      match q with
      | [] => (true, b, [], [])
      | TDone :: q' => pool_run n' b q'
      | TFatal :: _ => (false, b, q, [])
      | TCall c k :: q' =>
          let (r, b1) := handle c b in
          let '(alive, b2, q2, evs) := pool_run n' b1 (k r :: q') in
          (alive, b2, q2, EvCall InfeedThread c r :: evs)
      end
  end.

(** One closure run to its end. *)
Fixpoint thread_run (t : Thread) (b : BackendState)
  : bool * BackendState * list Event :=
  match t with
  | TDone => (true, b, [])
  | TFatal => (false, b, [])
  | TCall c k =>
      let (r, b1) := handle c b in
      let '(alive, b2, evs) := thread_run (k r) b1 in
      (alive, b2, EvCall InfeedThread c r :: evs)
  end.

(** The whole queue run to its end (what ~ThreadPool waits for). *)
Fixpoint pool_drain (q : list Thread) (b : BackendState)
  : bool * BackendState * list Event :=
  match q with
  | [] => (true, b, [])
  | t :: q' =>
      match thread_run t b with
      | (true, b1, evs) =>
          let '(alive, b2, evs2) := pool_drain q' b1 in
          (alive, b2, evs ++ evs2)
      | (false, b1, evs) => (false, b1, evs)
      end
  end.

(** A call of the main thread.  The pool thread first runs for as many
    steps as the schedule says (none once the schedule is used up). *)
Definition call (c : Call) : M (Reply c) :=
  fun w =>
    match pool_run (hd O (schedule w)) (backend w) (pool w) with
    | (true, b1, q1, evs) =>
        let (r, b2) := handle c b1 in
        (Returned r,
         {| backend := b2; pool := q1; schedule := tl (schedule w);
            trace := trace w ++ evs ++ [EvCall MainThread c r] |})
    | (false, b1, q1, evs) =>
        (Aborted,
         {| backend := b1; pool := q1; schedule := tl (schedule w);
            trace := trace w ++ evs |})
    end.

(** fprintf *)
Definition print (stream : Stream) (line : Line) : M unit :=
  fun w =>
    (Returned tt,
     {| backend := backend w; pool := pool w; schedule := schedule w;
        trace := trace w ++ [EvPrint stream line] |}).

(** ThreadPool::Schedule on a pool of one thread: the closure is queued. *)
Definition Schedule (closure : Thread) : M unit :=
  fun w =>
    (Returned tt,
     {| backend := backend w; pool := pool w ++ [closure];
        schedule := schedule w;
        trace := trace w ++ [EvSchedule closure] |}).

(** The destructor of the pool: wait until the queue is empty. *)
Definition destroy_pool : M unit :=
  fun w =>
    match pool_drain (pool w) (backend w) with
    | (true, b1, evs) =>
        (Returned tt,
         {| backend := b1; pool := []; schedule := schedule w;
            trace := trace w ++ evs |})
    | (false, b1, evs) =>
        (Aborted,
         {| backend := b1; pool := []; schedule := schedule w;
            trace := trace w ++ evs |})
    end.

End Machine.

Arguments Aborted {A}.

Declare Scope replay_scope.
Delimit Scope replay_scope with replay.

Notation "x <- m ;; k" := (bind m (fun x => k))
  (at level 61, m at next level, right associativity) : replay_scope.
Notation "m ;; k" := (bind m (fun _ => k))
  (at level 61, right associativity) : replay_scope.

(** TF_ASSIGN_OR_RETURN(x, m): leave the function with the status of [m]
    when it is not OK. *)
Notation "x <-? m ;; k" :=
  (bind m (fun r => match r with
                    | Ok x => k
                    | Err s => ret (Err s)
                    end))
  (at level 61, m at next level, right associativity) : replay_scope.

(** ** The tool *)
Section Tool.
Context {xla_types : XlaTypes} {xla_lib : XlaLib} {xla_backend : Backend}.
Local Open Scope replay_scope.

(** *** Arguments (ReplayComputation, lines 88-99) *)

(** The loop over [module.arguments()]; [arguments] is the vector built so
    far. *)
Fixpoint transfer_recorded (client : Client) (protos : list LiteralProto)
    (arguments : list GlobalData) : M (StatusOr (list GlobalData)) :=
  match protos with
  | [] => ret (Ok arguments)
  | proto :: rest =>
      match CreateFromProto proto with
      | Err s => ret (Err s)
      | Ok literal =>
          data <-? call (TransferToServer client literal) ;;
          transfer_recorded client rest (arguments ++ [data])
      end
  end.

Definition provision_arguments (module : HloSnapshot) (client : Client)
    (opts : Options) (computation : XlaComputation)
  : M (StatusOr (list GlobalData)) :=
  if use_fake_data opts then
    made <- call (MakeFakeArgumentsOrDie computation client) ;;
    match made with
    | Some arguments => ret (Ok arguments)
    | None => die
    end
  else
    transfer_recorded client (arguments module) [].

(** *** Whether to feed the infeed, and with which shape (lines 101-123)

    The state of the scan is the pair of locals [provide_infeed] and
    [infeed_shape]; [None] is a failed CHECK. *)
Fixpoint scan_instructions (instrs : list HloInstructionProto)
    (st : bool * Shape) : option (bool * Shape) :=
  match instrs with
  | [] => Some st
  | instruction :: rest =>
      if String.eqb (opcode instruction) HloOpcodeString_kInfeed then
        if fst st then None   (* CHECK(!provide_infeed) *)
        else scan_instructions rest (true, shape instruction)
      else scan_instructions rest st
  end.

Fixpoint scan_computations (comps : list HloComputationProto)
    (st : bool * Shape) : option (bool * Shape) :=
  match comps with
  | [] => Some st
  | comp :: rest =>
      match scan_instructions (instructions comp) st with
      | Some st' => scan_computations rest st'
      | None => None
      end
  end.

Definition decide_infeed (opts : Options) (computation : XlaComputation)
  : option (bool * Shape) :=
  if negb (String.eqb (fake_infeed_shape opts) "") then
    match ParseShapeString (fake_infeed_shape opts) with
    | Ok infeed_shape => Some (true, infeed_shape)
    | Err _ => None           (* TF_CHECK_OK(shape_status.status()) *)
    end
  else if generate_fake_infeed opts then
    scan_computations (computations (proto computation))
                      (false, Shape_default)
  else Some (false, Shape_default).

(** *** The closure given to the pool (lines 132-145) *)
Fixpoint push_infeeds (client : Client) (data : Literal) (n : nat) : Thread :=
  match n with
  | O => TDone
  | S n' =>
      TCall (TransferToInfeed client data)
            (fun status =>
               match status with
               | Ok _ => push_infeeds client data n'
               | Err _ => TFatal    (* TF_CHECK_OK *)
               end)
  end.

Definition infeed_closure (opts : Options) (infeed_shape : Shape)
    (client : Client) : Thread :=
  TCall (MakeFakeLiteral infeed_shape)
        (fun data_status =>
           match data_status with
           | Ok data => push_infeeds client data (Z.to_nat (num_infeeds opts))
           | Err _ => TFatal        (* TF_CHECK_OK(data_status.status()) *)
           end).

(** *** The runs (lines 154-180) *)
Definition run_options (opts : Options) (i : Z) : ExecutionOptions :=
  if xla_hlo_profile_last_run opts && (i =? num_runs opts - 1) then
    set_xla_hlo_profile true CreateDefaultExecutionOptions
  else CreateDefaultExecutionOptions.

(** [remaining] counts the iterations left of
    [for (int i = 0; i < opts.num_runs; ++i)]. *)
Fixpoint execute_runs (client : Client) (opts : Options)
    (computation : XlaComputation) (execute_arguments : list GlobalData)
    (remaining : nat) (i : Z) (result : option Literal)
  : M (StatusOr (option Literal)) :=
  match remaining with
  | O => ret (Ok result)
  | S remaining' =>
      let execution_options := run_options opts i in
      if print_result opts then
        transferred <-? call (ExecuteAndTransfer client computation
                               execute_arguments execution_options) ;;
        execute_runs client opts computation execute_arguments remaining'
                     (i + 1) (Some (fst transferred))
      else
        _ <-? call (Execute client computation execute_arguments
                            execution_options) ;;
        execute_runs client opts computation execute_arguments remaining'
                     (i + 1) result
  end.

(** *** ReplayComputation

    [replay_setup] is lines 86-123 and leaves the locals that the rest of
    the function reads; [replay_run] is lines 124-181.  The pool is a local
    of the function: it is destroyed, and so waited for, when the function
    returns. *)
Record ReplaySetup : Type := {
  computation : XlaComputation;
  execute_arguments : list GlobalData;
  provide_infeed : bool;
  infeed_shape : Shape
}.

Definition replay_setup (module : HloSnapshot) (client : Client)
    (opts : Options) : M (StatusOr ReplaySetup) :=
  computation <-? call (LoadSnapshot client module) ;;
  arguments <-? provision_arguments module client opts computation ;;
  match decide_infeed opts computation with
  | None => die
  | Some (provide_infeed, infeed_shape) =>
      ret (Ok {| computation := computation;
                 execute_arguments := arguments;
                 provide_infeed := provide_infeed;
                 infeed_shape := infeed_shape |})
  end.

Definition replay_run (client : Client) (opts : Options) (s : ReplaySetup)
  : M (StatusOr (option Literal)) :=
  (if provide_infeed s
   then Schedule (infeed_closure opts (infeed_shape s) client)
   else ret tt) ;;
  result <- execute_runs client opts (computation s) (execute_arguments s)
                         (Z.to_nat (num_runs opts)) 0 None ;;
  destroy_pool ;;
  ret result.

Definition ReplayComputation (module : HloSnapshot) (client : Client)
    (opts : Options) : M (StatusOr (option Literal)) :=
  s <-? replay_setup module client opts ;;
  replay_run client opts s.

(** *** RealMain *)
Definition EXIT_SUCCESS : Z := 0.
Definition EXIT_FAILURE : Z := 1.

(** Lines 206-216: the computed result, then the recorded one. *)
Definition report (arg : string) (snapshot : HloSnapshot) (result : Literal)
  : M unit :=
  print stdout (ResultLine arg (name (hlo_module (hlo snapshot)))
                           (HumanString (Literal_shape result))
                           (Literal_ToString result)) ;;
  match SnapshotResult snapshot with
  | Some recorded =>
      match CreateFromProto recorded with
      | Ok literal =>
          print stdout (WasLine (HumanString (LiteralProto_shape recorded))
                                (Literal_ToString literal))
      | Err _ => die                (* ConsumeValueOrDie *)
      end
  | None => ret tt
  end.

(** The body of the loop over the files (lines 188-217); the value is
    [exit_status] after the file. *)
Definition replay_file (client : Client) (opts : Options) (arg : string)
    (exit_status : Z) : M Z :=
  status <- call (ReadBinaryProto arg) ;;
  match status with
  | Err s =>
      print stderr (NotSnapshotLine arg (Status_ToString s)) ;;
      ret exit_status
  | Ok snapshot =>
      result_status <- ReplayComputation snapshot client opts ;;
      match result_status with
      | Err s =>
          print stderr (ErrorLine arg (Status_ToString s)) ;;
          ret EXIT_FAILURE
      | Ok None => ret exit_status
      | Ok (Some result) =>
          report arg snapshot result ;;
          ret exit_status
      end
  end.

Fixpoint replay_files (client : Client) (opts : Options) (args : list string)
    (exit_status : Z) : M Z :=
  match args with
  | [] => ret exit_status
  | arg :: rest =>
      exit_status' <- replay_file client opts arg exit_status ;;
      replay_files client opts rest exit_status'
  end.

Definition RealMain (args : list string) (opts : Options) : M Z :=
  local_client <- call LocalClientOrDie ;;
  match local_client with
  | None => die
  | Some client =>
      exit_status <- replay_files client opts args EXIT_SUCCESS ;;
      call DestroyLocalInstances ;;
      ret exit_status
  end.

End Tool.

(** ** Reading a trace *)
Section Observations.
Context {xla_types : XlaTypes} {xla_lib : XlaLib} {xla_backend : Backend}.

(** The calls of the pool thread, and everything else (the main thread). *)
Definition is_pool_event (e : Event) : bool :=
  match e with
  | EvCall InfeedThread _ _ => true
  | _ => false
  end.

Definition pool_events (evs : list Event) : list Event :=
  filter is_pool_event evs.

Definition main_events (evs : list Event) : list Event :=
  filter (fun e => negb (is_pool_event e)) evs.

(** An execute call of the main thread, with or without the transfer of
    the result. *)
Definition is_execute (e : Event) : bool :=
  match e with
  | EvCall MainThread (ExecuteAndTransfer _ _ _ _) _ => true
  | EvCall MainThread (Execute _ _ _ _) _ => true
  | _ => false
  end.

Definition is_retrieval (e : Event) : bool :=
  match e with
  | EvCall MainThread (ExecuteAndTransfer _ _ _ _) _ => true
  | _ => false
  end.

Definition is_schedule (e : Event) : bool :=
  match e with
  | EvSchedule _ => true
  | _ => false
  end.

(** The lines printed, in order. *)
Definition printed (evs : list Event) : list (Stream * Line) :=
  flat_map (fun e => match e with
                     | EvPrint stream line => [(stream, line)]
                     | _ => []
                     end) evs.

(** The files that were read, in order. *)
Definition files_read (evs : list Event) : list string :=
  flat_map (fun e => match e with
                     | EvCall MainThread (ReadBinaryProto fname) _ => [fname]
                     | _ => []
                     end) evs.


(** The events that lines 86-123 of [ReplayComputation] can leave. *)
Definition setup_event (e : Event) : bool :=
  match e with
  | EvCall InfeedThread _ _ => true
  | EvCall MainThread c _ =>
      match c with
      | LoadSnapshot _ _ => true
      | MakeFakeArgumentsOrDie _ _ => true
      | TransferToServer _ _ => true
      | _ => false
      end
  | _ => false
  end.

(** The events that the loop of the runs can leave; [retrieving] tells
    whether ExecuteAndTransfer is among them. *)
Definition loop_event (retrieving : bool) (e : Event) : bool :=
  match e with
  | EvCall InfeedThread _ _ => true
  | EvCall MainThread c _ =>
      match c with
      | Execute _ _ _ _ => true
      | ExecuteAndTransfer _ _ _ _ => retrieving
      | _ => false
      end
  | _ => false
  end.

(** The events a replay can leave: calls of the pool thread, the
    scheduling of a closure, and the client calls of [ReplayComputation];
    [retrieving] tells whether ExecuteAndTransfer is among them. *)
Definition replay_event (retrieving : bool) (e : Event) : bool :=
  match e with
  | EvCall InfeedThread _ _ => true
  | EvSchedule _ => true
  | EvPrint _ _ => false
  | EvCall MainThread c _ =>
      match c with
      | LoadSnapshot _ _ => true
      | MakeFakeArgumentsOrDie _ _ => true
      | TransferToServer _ _ => true
      | Execute _ _ _ _ => true
      | ExecuteAndTransfer _ _ _ _ => retrieving
      | _ => false
      end
  end.

(** A list of events of the pool thread only. *)
Definition all_pool (evs : list Event) : Prop :=
  Forall (fun e => is_pool_event e = true) evs.

(** [m] only adds events that satisfy [P] to the trace, whatever its
    outcome. *)
Definition emits (P : Event -> bool) {A} (m : M A) : Prop :=
  forall w, exists evs,
      trace (snd (m w)) = trace w ++ evs
      /\ Forall (fun e => P e = true) evs.

(** On a world without scheduled closure, [m] schedules none and the pool
    thread stays idle. *)
Definition quiet {A} (m : M A) : Prop :=
  forall w,
    pool w = [] ->
    pool (snd (m w)) = []
    /\ exists evs,
        trace (snd (m w)) = trace w ++ evs /\ pool_events evs = [].

(** [P] holds of every call of the pool thread. *)
Definition pool_closed (P : Event -> bool) : Prop :=
  forall c r, P (EvCall InfeedThread c r) = true.

(** The lines of a report, on stdout. *)
Definition report_event (e : Event) : bool :=
  match e with
  | EvPrint stdout (ResultLine _ _ _ _) => true
  | EvPrint stdout (WasLine _ _) => true
  | _ => false
  end.

(** The line for the computed result, and the line for the recorded one. *)
Definition computed_line (arg : string) (snapshot : HloSnapshot)
    (result : Literal) : Line :=
  ResultLine arg (name (hlo_module (hlo snapshot)))
             (HumanString (Literal_shape result)) (Literal_ToString result).

Definition recorded_line (recorded : LiteralProto) (literal : Literal) : Line :=
  WasLine (HumanString (LiteralProto_shape recorded))
          (Literal_ToString literal).

(** *** The runs of the execution loop

    What one successful run got back from the client. *)
Inductive RunResult : Type :=
| Retrieved (literal : Literal) (profile : ExecutionProfile)
| NotRetrieved (data : GlobalData) (profile : ExecutionProfile).

(** The result value of a run: the literal that was transferred, if any. *)
Definition run_value (r : RunResult) : option Literal :=
  match r with
  | Retrieved literal _ => Some literal
  | NotRetrieved _ _ => None
  end.

Definition run_retrieves (r : RunResult) : bool :=
  match r with
  | Retrieved _ _ => true
  | NotRetrieved _ _ => false
  end.

(** The event of run [i] (counted from 0) that got [r]. *)
Definition run_event (client : Client) (opts : Options)
    (computation : XlaComputation) (arguments : list GlobalData)
    (i : Z) (r : RunResult) : Event :=
  match r with
  | Retrieved literal profile =>
      EvCall MainThread
             (ExecuteAndTransfer client computation arguments
                                 (run_options opts i))
             (Ok (literal, profile))
  | NotRetrieved data profile =>
      EvCall MainThread
             (Execute client computation arguments (run_options opts i))
             (Ok (data, profile))
  end.

Fixpoint run_events (client : Client) (opts : Options)
    (computation : XlaComputation) (arguments : list GlobalData)
    (i : Z) (rs : list RunResult) : list Event :=
  match rs with
  | [] => []
  | r :: rs' =>
      run_event client opts computation arguments i r
      :: run_events client opts computation arguments (i + 1) rs'
  end.

(** *** The events of the feed *)
Definition made_event (infeed_shape : Shape) (data : Literal) : Event :=
  EvCall InfeedThread (MakeFakeLiteral infeed_shape) (Ok data).

Definition pushed_event (client : Client) (data : Literal) : Event :=
  EvCall InfeedThread (TransferToInfeed client data) (Ok tt).

(** Where the feed stands: the queue of the pool against the calls the
    pool thread has made so far.  [fed] tells whether a closure was
    scheduled at all. *)
Inductive FeedState (client : Client) (opts : Options) (infeed_shape : Shape)
  : bool -> list Thread -> list Event -> Prop :=
| FeedNone : FeedState client opts infeed_shape false [] []
| FeedQueued :
    FeedState client opts infeed_shape true
              [infeed_closure opts infeed_shape client] []
| FeedPushing data k :
    (k <= Z.to_nat (num_infeeds opts))%nat ->
    FeedState client opts infeed_shape true
              [push_infeeds client data k]
              (made_event infeed_shape data
               :: repeat (pushed_event client data)
                         (Z.to_nat (num_infeeds opts) - k))
| FeedDone data :
    FeedState client opts infeed_shape true []
              (made_event infeed_shape data
               :: repeat (pushed_event client data)
                         (Z.to_nat (num_infeeds opts))).

(** The value of the local [result] after the given runs. *)
Fixpoint last_run_value (result : option Literal) (runs : list RunResult)
  : option Literal :=
  match runs with
  | [] => result
  | Retrieved literal _ :: runs' => last_run_value (Some literal) runs'
  | NotRetrieved _ _ :: runs' => last_run_value result runs'
  end.

(** *** Assumptions on the client *)

(** Every execute call of the given program on the given arguments
    succeeds, in every state and with every option. *)
Definition executes_succeed (client : Client) (computation : XlaComputation)
    (arguments : list GlobalData) : Prop :=
  forall execution_options b,
    (exists v, fst (handle (ExecuteAndTransfer client computation arguments
                                               execution_options) b) = Ok v)
    /\ (exists v, fst (handle (Execute client computation arguments
                                       execution_options) b) = Ok v).

(** The generator of fake literals and the infeed never fail. *)
Definition infeed_succeeds : Prop :=
  (forall infeed_shape b,
      exists data, fst (handle (MakeFakeLiteral infeed_shape) b) = Ok data)
  /\ (forall client data b,
         fst (handle (TransferToInfeed client data) b) = Ok tt).

(** Every transfer of a literal to the server succeeds. *)
Definition transfers_succeed : Prop :=
  forall client literal b,
    exists data, fst (handle (TransferToServer client literal) b) = Ok data.

(** The infeed instructions of a program, in the order of the scan. *)
Definition infeed_shapes (computation : XlaComputation) : list Shape :=
  map (fun instruction => shape instruction)
      (filter (fun instruction =>
                 String.eqb (opcode instruction) HloOpcodeString_kInfeed)
              (flat_map (fun comp => instructions comp)
                        (computations (proto computation)))).


(** The scan of lines 110-122 over the infeed shapes alone. *)
Fixpoint feed_scan (found : list Shape) (st : bool * Shape)
  : option (bool * Shape) :=
  match found with
  | [] => Some st
  | found_shape :: rest =>
      if fst st then None else feed_scan rest (true, found_shape)
  end.

Definition is_infeed (instruction : HloInstructionProto) : bool :=
  String.eqb (opcode instruction) HloOpcodeString_kInfeed.

(** The transfers of the given literals, answered with the given
    handles. *)
Definition transfer_events (client : Client) (literals : list Literal)
    (handles : list GlobalData) : list Event :=
  map (fun lh => EvCall MainThread (TransferToServer client (fst lh))
                        (Ok (snd lh)))
      (combine literals handles).

End Observations.

(** ** More to read in a trace *)
Section MoreObservations.
Context {xla_types : XlaTypes} {xla_lib : XlaLib} {xla_backend : Backend}.

(** The event of run [i] when the client answered with the status [st]:
    which execute call it is depends on [print_result]. *)
Definition failed_run_event (client : Client) (opts : Options)
    (computation : XlaComputation) (arguments : list GlobalData)
    (i : Z) (st : Status) : Event :=
  if print_result opts then
    EvCall MainThread
           (ExecuteAndTransfer client computation arguments
                               (run_options opts i))
           (Err st)
  else
    EvCall MainThread
           (Execute client computation arguments (run_options opts i))
           (Err st).

(** The execution options of the execute calls of the main thread, in
    order. *)
Definition options_used (evs : list Event) : list ExecutionOptions :=
  flat_map (fun e => match e with
                     | EvCall MainThread (ExecuteAndTransfer _ _ _ o) _ => [o]
                     | EvCall MainThread (Execute _ _ _ o) _ => [o]
                     | _ => []
                     end) evs.

(** A closure that fails a fatal check whatever the client answers. *)
Inductive Doomed : Thread -> Prop :=
| DoomedFatal : Doomed TFatal
| DoomedCall c k :
    (forall b, Doomed (k (fst (handle c b)))) -> Doomed (TCall c k).

(** A computation of the main thread that leaves a doomed closure in the
    pool if it returns at all. *)
Definition keeps_doom {A} (m : M A) : Prop :=
  forall w t,
    pool w = [t] -> Doomed t ->
    (exists w', m w = (Aborted, w'))
    \/ (exists a w' t', m w = (Returned a, w') /\ pool w' = [t'] /\ Doomed t').

(** The feed, or what is left of it once a check of the closure is about
    to fail. *)
Definition FeedOrFailed (client : Client) (opts : Options)
    (infeed_shape : Shape) (fed : bool) (q : list Thread)
    (es : list Event) : Prop :=
  FeedState client opts infeed_shape fed q es \/ q = [TFatal].

(** The calls that get and release the client. *)
Definition is_lifecycle (e : Event) : bool :=
  match e with
  | EvCall MainThread LocalClientOrDie _ => true
  | EvCall MainThread DestroyLocalInstances _ => true
  | _ => false
  end.

(** The events the loop over the files can leave. *)
Definition batch_event (e : Event) : bool :=
  match e with
  | EvCall InfeedThread _ _ => true
  | EvSchedule _ => true
  | EvPrint _ _ => true
  | EvCall MainThread c _ =>
      match c with
      | LocalClientOrDie => false
      | DestroyLocalInstances => false
      | _ => true
      end
  end.

(** The events a replay can leave when the arguments are made up
    ([fake]) or recorded. *)
Definition provision_event (fake : bool) (e : Event) : bool :=
  match e with
  | EvCall InfeedThread _ _ => true
  | EvSchedule _ => true
  | EvPrint _ _ => false
  | EvCall MainThread c _ =>
      match c with
      | LoadSnapshot _ _ => true
      | MakeFakeArgumentsOrDie _ _ => fake
      | TransferToServer _ _ => negb fake
      | Execute _ _ _ _ => true
      | ExecuteAndTransfer _ _ _ _ => true
      | _ => false
      end
  end.

Definition is_fake_arguments_call (e : Event) : bool :=
  match e with
  | EvCall MainThread (MakeFakeArgumentsOrDie _ _) _ => true
  | _ => false
  end.

Definition is_transfer_call (e : Event) : bool :=
  match e with
  | EvCall MainThread (TransferToServer _ _) _ => true
  | _ => false
  end.

End MoreObservations.

(** ** A small client to run the tool on

    Shapes and literals are their text; a literal proto is its text too, and
    the text "corrupt" does not deserialize.  A handle is a number.  The
    state of the client counts the executions made, and the literal of an
    execution carries that count, so that the results of successive runs
    differ.  A program named "crash" fails to execute. *)
Section ToyClient.

#[local] Instance toy_types : XlaTypes := {|
  Shape := string;
  Literal := string;
  LiteralProto := string;
  GlobalData := nat;
  Status := string;
  Client := unit;
  ExecutionOptions := bool;
  ExecutionProfile := nat
|}.

Definition toy_CreateFromProto (p : string) : StatusOr string :=
  if String.eqb p "corrupt" then Err "corrupt literal" else Ok p.

Definition toy_ParseShapeString (s : string) : StatusOr string :=
  if String.eqb s "f32[2]" then Ok s else Err "cannot parse shape".

#[local] Instance toy_lib : XlaLib := {|
  ParseShapeString := toy_ParseShapeString;
  HumanString := fun s : string => s;
  CreateFromProto := toy_CreateFromProto;
  Literal_shape := fun _ : string => "f32[]";
  Literal_ToString := fun l : string => l;
  LiteralProto_shape := fun _ : string => "f32[]";
  Status_ToString := fun s : string => s;
  Shape_default := "";
  HloOpcodeString_kInfeed := "infeed";
  CreateDefaultExecutionOptions := false;
  set_xla_hlo_profile := fun (b : bool) (_ : bool) => b
|}.

Definition toy_module (module_name : string) (ops : list (string * string))
    (params : list string) : HloModuleProto :=
  {| name := module_name;
     computations :=
       [ {| instructions :=
              map (fun op => {| opcode := fst op; shape := snd op |}) ops |} ];
     program_shape := {| parameters := params |} |}.

Definition toy_snapshot (module_name : string) (ops : list (string * string))
    (params : list string) (args : list string) (res : option string)
  : HloSnapshot :=
  {| hlo := {| hlo_module := toy_module module_name ops params |};
     arguments := args;
     SnapshotResult := res |}.

(** No parameter, no recorded result. *)
Definition snap_plain : HloSnapshot :=
  toy_snapshot "plain" [("constant", "f32[]")] [] [] None.

(** One parameter, its recorded argument and the recorded result. *)
Definition snap_recorded : HloSnapshot :=
  toy_snapshot "recorded" [("parameter", "f32[]")] ["f32[]"] ["41"]
               (Some "42").

(** No declared parameter, but one recorded argument. *)
Definition snap_mismatch : HloSnapshot :=
  toy_snapshot "mismatch" [("constant", "f32[]")] [] ["7"] None.

(** The program of [snap_plain], with a recorded argument. *)
Definition snap_plain_recorded : HloSnapshot :=
  toy_snapshot "plain" [("constant", "f32[]")] [] ["7"] None.

(** One infeed instruction. *)
Definition snap_infeed : HloSnapshot :=
  toy_snapshot "fed" [("infeed", "f32[2]"); ("add", "f32[2]")] [] [] None.

(** Two infeed instructions. *)
Definition snap_two_infeeds : HloSnapshot :=
  toy_snapshot "fed_twice" [("infeed", "f32[2]"); ("infeed", "f32[3]")]
               [] [] None.

(** A recorded result that does not deserialize. *)
Definition snap_corrupt_result : HloSnapshot :=
  toy_snapshot "plain" [("constant", "f32[]")] [] [] (Some "corrupt").

(** A program the client fails to execute. *)
Definition snap_crash : HloSnapshot :=
  toy_snapshot "crash" [("constant", "f32[]")] [] [] None.

(** The files on disk. *)
Definition toy_files (fname : string) : StatusOr HloSnapshot :=
  if String.eqb fname "plain.pb" then Ok snap_plain
  else if String.eqb fname "recorded.pb" then Ok snap_recorded
  else if String.eqb fname "mismatch.pb" then Ok snap_mismatch
  else if String.eqb fname "fed.pb" then Ok snap_infeed
  else if String.eqb fname "fed_twice.pb" then Ok snap_two_infeeds
  else if String.eqb fname "corrupt_result.pb" then Ok snap_corrupt_result
  else if String.eqb fname "crash.pb" then Ok snap_crash
  else Err "not found".

Definition toy_literal (n : nat) : string :=
  ("run" ++ NilEmpty.string_of_uint (Nat.to_uint n))%string.

Definition toy_handle (c : Call) : nat -> Reply c * nat :=
  match c as c0 return nat -> Reply c0 * nat with
  | LocalClientOrDie => fun n => (Some tt, n)
  | DestroyLocalInstances => fun n => (tt, n)
  | ReadBinaryProto fname => fun n => (toy_files fname, n)
  | LoadSnapshot _ module =>
      fun n => (Ok {| proto := hlo_module (hlo module) |}, n)
  | MakeFakeArgumentsOrDie computation _ =>
      fun n =>
        (Some (seq 0 (List.length (parameters (program_shape (proto computation))))),
         n)
  | TransferToServer _ literal => fun n => (Ok (String.length literal), n)
  | MakeFakeLiteral shape => fun n => (Ok ("fake " ++ shape)%string, n)
  | TransferToInfeed _ _ => fun n => (Ok tt, n)
  | ExecuteAndTransfer _ computation _ _ =>
      fun n =>
        if String.eqb (name (proto computation)) "crash"
        then (Err "execution failed", S n)
        else (Ok (toy_literal (S n), n), S n)
  | Execute _ computation _ _ =>
      fun n =>
        if String.eqb (name (proto computation)) "crash"
        then (Err "execution failed", S n)
        else (Ok (n, n), S n)
  end.

#[local] Instance toy_backend : Backend := {|
  BackendState := nat;
  handle := toy_handle
|}.

(** A world in which nothing has happened yet. *)
Definition toy_world (sched : list nat) : World :=
  {| backend := 0%nat; pool := []; schedule := sched; trace := [] |}.

Definition toy_options (runs : Z) (print : bool) : Options :=
  {| fake_infeed_shape := "";
     generate_fake_infeed := false;
     num_infeeds := 10;
     use_fake_data := false;
     print_result := print;
     num_runs := runs;
     xla_hlo_profile_last_run := true |}.

(** Infer the shape of the infeed from the program and push [feeds]
    times. *)
Definition toy_infeed_options (feeds : Z) : Options :=
  {| fake_infeed_shape := "";
     generate_fake_infeed := true;
     num_infeeds := feeds;
     use_fake_data := false;
     print_result := true;
     num_runs := 2;
     xla_hlo_profile_last_run := false |}.

(** Feed an infeed of the given shape text. *)
Definition toy_shape_options (shape_text : string) : Options :=
  {| fake_infeed_shape := shape_text;
     generate_fake_infeed := false;
     num_infeeds := 3;
     use_fake_data := false;
     print_result := true;
     num_runs := 1;
     xla_hlo_profile_last_run := false |}.

(** Make the arguments up instead of using the recorded ones. *)
Definition toy_fake_options : Options :=
  {| fake_infeed_shape := "";
     generate_fake_infeed := false;
     num_infeeds := 10;
     use_fake_data := true;
     print_result := true;
     num_runs := 1;
     xla_hlo_profile_last_run := false |}.

Definition toy_client : Client := tt.

(** What [Client::LoadSnapshot] makes of a snapshot. *)
Definition toy_computation (module : HloSnapshot) : XlaComputation :=
  {| proto := hlo_module (hlo module) |}.

End ToyClient.

(** ** A client whose infeed fails

    The same client, except that no literal can be made for the shape
    "f32[3]" and that the infeed refuses every transfer. *)
Section FaultyClient.
#[local] Existing Instance toy_types.
#[local] Existing Instance toy_lib.

Definition faulty_handle (c : Call) : nat -> Reply c * nat :=
  match c as c0 return nat -> Reply c0 * nat with
  | MakeFakeLiteral shape =>
      fun n =>
        if String.eqb shape "f32[3]"
        then (Err "cannot make literal", n)
        else (Ok ("fake " ++ shape)%string, n)
  | TransferToInfeed _ _ => fun n => (Err "infeed refused", n)
  | c' => toy_handle c'
  end.

#[local] Instance faulty_backend : Backend := {|
  BackendState := nat;
  handle := faulty_handle
|}.

Definition faulty_world (sched : list nat) : World :=
  {| backend := 0%nat; pool := []; schedule := sched; trace := [] |}.

(** One infeed instruction, of the shape no literal can be made for. *)
Definition snap_infeed3 : HloSnapshot :=
  toy_snapshot "fed3" [("infeed", "f32[3]")] [] [] None.

(** Two recorded arguments around one that does not deserialize. *)
Definition snap_corrupt_argument : HloSnapshot :=
  toy_snapshot "three" [("parameter", "f32[]")] ["f32[]"; "f32[]"; "f32[]"]
               ["1"; "corrupt"; "3"] None.

End FaultyClient.

(** * Properties *)

(** ** The pool thread and the primitives of the main thread *)
Section Primitives.
Context {xla_types : XlaTypes} {xla_lib : XlaLib} {xla_backend : Backend}.

Lemma all_pool_app (xs ys : list Event) :
  all_pool xs -> all_pool ys -> all_pool (xs ++ ys).
Proof. unfold all_pool. intros. apply Forall_app. split; assumption. Qed.

Lemma all_pool_filter (f : Event -> bool) (evs : list Event) :
  (forall e, is_pool_event e = true -> f e = false) ->
  all_pool evs -> filter f evs = [].
Proof.
  intros Hf Hall. induction Hall as [|e evs He _ IH]; simpl.
  - reflexivity.
  - rewrite (Hf e He). exact IH.
Qed.

Lemma all_pool_flat_map {X} (f : Event -> list X) (evs : list Event) :
  (forall e, is_pool_event e = true -> f e = []) ->
  all_pool evs -> flat_map f evs = [].
Proof.
  intros Hf Hall. induction Hall as [|e evs He _ IH]; simpl.
  - reflexivity.
  - rewrite (Hf e He). exact IH.
Qed.

Lemma all_pool_pool_events (evs : list Event) :
  all_pool evs -> pool_events evs = evs.
Proof.
  intros Hall. unfold pool_events.
  induction Hall as [|e evs He _ IH]; simpl.
  - reflexivity.
  - rewrite He, IH. reflexivity.
Qed.

Lemma all_pool_main_events (evs : list Event) :
  all_pool evs -> main_events evs = [].
Proof.
  intros Hall. unfold main_events. apply all_pool_filter; [|exact Hall].
  intros e He. rewrite He. reflexivity.
Qed.

Lemma all_pool_closed (P : Event -> bool) (evs : list Event) :
  pool_closed P -> all_pool evs -> Forall (fun e => P e = true) evs.
Proof.
  intros HP Hall. induction Hall as [|e evs He _ IH]; constructor; auto.
  destruct e as [[|] c r| |]; simpl in He; try discriminate. apply HP.
Qed.

(** The pool thread only leaves calls of its own. *)
Lemma pool_run_all_pool (n : nat) :
  forall b q alive b' q' evs,
    pool_run n b q = (alive, b', q', evs) -> all_pool evs.
Proof.
  induction n as [|n IH]; intros b q alive b' q' evs Hrun; simpl in Hrun.
  - inversion Hrun; subst. constructor.
  - destruct q as [|[| |c k] q0].
    + inversion Hrun; subst. constructor.
    + eapply IH; eassumption.
    + inversion Hrun; subst. constructor.
    + destruct (handle c b) as [r b1].
      destruct (pool_run n b1 (k r :: q0)) as [[[a2 b2] q2] evs2] eqn:Hrec.
      inversion Hrun; subst. constructor; [reflexivity|].
      eapply IH; eassumption.
Qed.

Lemma thread_run_all_pool (t : Thread) :
  forall b alive b' evs, thread_run t b = (alive, b', evs) -> all_pool evs.
Proof.
  induction t as [| |c k IH]; intros b alive b' evs Hrun; simpl in Hrun.
  - inversion Hrun; subst. constructor.
  - inversion Hrun; subst. constructor.
  - destruct (handle c b) as [r b1].
    destruct (thread_run (k r) b1) as [[a2 b2] evs2] eqn:Hrec.
    inversion Hrun; subst. constructor; [reflexivity|].
    eapply IH; eassumption.
Qed.

Lemma pool_drain_all_pool (q : list Thread) :
  forall b alive b' evs, pool_drain q b = (alive, b', evs) -> all_pool evs.
Proof.
  induction q as [|t q IH]; intros b alive b' evs Hrun; simpl in Hrun.
  - inversion Hrun; subst. constructor.
  - destruct (thread_run t b) as [[a1 b1] evs1] eqn:Ht.
    pose proof (thread_run_all_pool _ _ Ht) as H1.
    destruct a1.
    + destruct (pool_drain q b1) as [[a2 b2] evs2] eqn:Hq.
      inversion Hrun; subst. apply all_pool_app; [exact H1|].
      eapply IH; eassumption.
    + inversion Hrun; subst. exact H1.
Qed.

(** With nothing queued the pool thread does nothing. *)
Lemma pool_run_nil (n : nat) (b : BackendState) :
  pool_run n b [] = (true, b, [], []).
Proof. destruct n; reflexivity. Qed.

(** What a call of the main thread does to the world, whatever the
    schedule: the pool thread leaves some calls, then either the process is
    aborted, or the call is answered and recorded. *)
Lemma call_inv (c : Call) (w : World) :
  exists pevs, all_pool pevs /\
    ((exists r w', call c w = (Returned r, w')
                  /\ trace w' = trace w ++ pevs ++ [EvCall MainThread c r])
     \/ (exists w', call c w = (Aborted, w')
                   /\ trace w' = trace w ++ pevs)).
Proof.
  unfold call.
  destruct (pool_run (hd 0%nat (schedule w)) (backend w) (pool w))
    as [[[alive b1] q1] evs] eqn:Hrun.
  exists evs. split; [eapply pool_run_all_pool; eassumption|].
  destruct alive.
  - left. destruct (handle c b1) as [r b2]. eexists; eexists.
    split; reflexivity.
  - right. eexists. split; reflexivity.
Qed.

(** A call on a world with an empty pool is the call alone. *)
Lemma call_quiet (c : Call) (w : World) :
  pool w = [] ->
  call c w =
  (Returned (fst (handle c (backend w))),
   {| backend := snd (handle c (backend w)); pool := [];
      schedule := tl (schedule w);
      trace := trace w ++ [EvCall MainThread c (fst (handle c (backend w)))] |}).
Proof.
  intros Hq. unfold call. rewrite Hq, pool_run_nil.
  destruct (handle c (backend w)) as [r b2]. reflexivity.
Qed.

(** *** What a computation adds to the trace *)
Lemma emits_ret (P : Event -> bool) {A} (a : A) : emits P (ret a).
Proof. intros w. exists []. simpl. rewrite app_nil_r. auto. Qed.

Lemma emits_die (P : Event -> bool) {A} : emits P (@die _ _ A).
Proof. intros w. exists []. simpl. rewrite app_nil_r. auto. Qed.

Lemma emits_bind (P : Event -> bool) {A B} (m : M A) (f : A -> M B) :
  emits P m -> (forall a, emits P (f a)) -> emits P (bind m f).
Proof.
  intros Hm Hf w. unfold bind.
  destruct (Hm w) as [evs1 [E1 F1]].
  destruct (m w) as [[a|] w1]; simpl in E1.
  - destruct (Hf a w1) as [evs2 [E2 F2]].
    exists (evs1 ++ evs2). rewrite E2, E1, app_assoc. split; [reflexivity|].
    apply Forall_app. split; assumption.
  - exists evs1. simpl. auto.
Qed.

Lemma emits_call (P : Event -> bool) (c : Call) :
  pool_closed P -> (forall r, P (EvCall MainThread c r) = true) ->
  emits P (call c).
Proof.
  intros HP Hc w.
  destruct (call_inv c w) as [pevs [Hall [[r [w' [E T]]]|[w' [E T]]]]];
    rewrite E; simpl.
  - exists (pevs ++ [EvCall MainThread c r]). split; [exact T|].
    apply Forall_app. split; [apply all_pool_closed; assumption|].
    constructor; [apply Hc | constructor].
  - exists pevs. split; [exact T|]. apply all_pool_closed; assumption.
Qed.

Lemma emits_print (P : Event -> bool) (stream : Stream) (line : Line) :
  P (EvPrint stream line) = true -> emits P (print stream line).
Proof.
  intros HP w. exists [EvPrint stream line]. simpl. split; [reflexivity|].
  constructor; [exact HP | constructor].
Qed.

Lemma emits_Schedule (P : Event -> bool) (closure : Thread) :
  P (EvSchedule closure) = true -> emits P (Schedule closure).
Proof.
  intros HP w. exists [EvSchedule closure]. simpl. split; [reflexivity|].
  constructor; [exact HP | constructor].
Qed.

Lemma emits_destroy_pool (P : Event -> bool) :
  pool_closed P -> emits P destroy_pool.
Proof.
  intros HP w. unfold destroy_pool.
  destruct (pool_drain (pool w) (backend w)) as [[alive b1] evs] eqn:Hd.
  exists evs. pose proof (pool_drain_all_pool _ _ Hd) as Hall.
  destruct alive; simpl; (split; [reflexivity|]);
    apply all_pool_closed; assumption.
Qed.

Lemma emits_weaken (P Q : Event -> bool) {A} (m : M A) :
  (forall e, P e = true -> Q e = true) -> emits P m -> emits Q m.
Proof.
  intros HPQ Hm w. destruct (Hm w) as [evs [E F]]. exists evs.
  split; [exact E|]. eapply Forall_impl; [|exact F]. exact HPQ.
Qed.

End Primitives.

(** ** The feed and the runs, on a client that does not fail *)
Section Runs.
Context {xla_types : XlaTypes} {xla_lib : XlaLib} {xla_backend : Backend}.
Local Open Scope replay_scope.

Lemma bind_inv {A B} (m : M A) (f : A -> M B) (w : World) o w' :
  bind m f w = (o, w') ->
  (exists a w1, m w = (Returned a, w1) /\ f a w1 = (o, w'))
  \/ (m w = (Aborted, w') /\ o = Aborted).
Proof.
  unfold bind. destruct (m w) as [[a|] w1]; intros E.
  - left. eauto.
  - right. inversion E; subst. auto.
Qed.

Lemma bind_returned {A B} (m : M A) (f : A -> M B) (w w1 : World) (a : A) :
  m w = (Returned a, w1) -> bind m f w = f a w1.
Proof. intros E. unfold bind. rewrite E. reflexivity. Qed.

Section Feed.
Variables (client : Client) (opts : Options) (infeed_shape : Shape).
Hypothesis feeds : infeed_succeeds.

Lemma pool_run_feed (n : nat) :
  forall fed b q es,
    FeedState client opts infeed_shape fed q es ->
    exists b' q' evs,
      pool_run n b q = (true, b', q', evs)
      /\ FeedState client opts infeed_shape fed q' (es ++ evs).
Proof.
  destruct feeds as [Hmake Hpush].
  induction n as [|n IH]; intros fed b q es Hst.
  - exists b, q, []. rewrite app_nil_r. split; [reflexivity | exact Hst].
  - destruct Hst as [| |data k Hk|data].
    + exists b, [], []. split; [reflexivity | constructor].
    + simpl. destruct (Hmake infeed_shape b) as [data Hdata].
      destruct (handle (MakeFakeLiteral infeed_shape) b) as [r b1] eqn:Hh.
      simpl in Hdata. subst r.
      destruct (IH true b1 [push_infeeds client data (Z.to_nat (num_infeeds opts))]
                   [made_event infeed_shape data]) as [b' [q' [evs [E St]]]].
      { pose proof (FeedPushing client opts infeed_shape data
                                (k := Z.to_nat (num_infeeds opts)) (le_n _)) as P.
        rewrite Nat.sub_diag in P. exact P. }
      simpl. rewrite E. exists b', q', (made_event infeed_shape data :: evs).
      split; [reflexivity | exact St].
    + destruct k as [|k].
      * simpl.
        destruct (IH true b [] (made_event infeed_shape data
                                :: repeat (pushed_event client data)
                                          (Z.to_nat (num_infeeds opts))))
          as [b' [q' [evs [E St]]]].
        { constructor. }
        rewrite E. exists b', q', evs. split; [reflexivity|].
        rewrite Nat.sub_0_r. exact St.
      * simpl. pose proof (Hpush client data b) as Hok.
        destruct (handle (TransferToInfeed client data) b) as [r b1] eqn:Hh.
        simpl in Hok. subst r.
        destruct (IH true b1 [push_infeeds client data k]
                     (made_event infeed_shape data
                      :: repeat (pushed_event client data)
                                (Z.to_nat (num_infeeds opts) - k)))
          as [b' [q' [evs [E St]]]].
        { constructor. lia. }
        rewrite E.
        exists b', q', (pushed_event client data :: evs).
        split; [reflexivity|].
        assert (Heq :
                  (made_event infeed_shape data
                   :: repeat (pushed_event client data)
                             (Z.to_nat (num_infeeds opts) - k)) ++ evs
                  = (made_event infeed_shape data
                     :: repeat (pushed_event client data)
                               (Z.to_nat (num_infeeds opts) - S k))
                      ++ pushed_event client data :: evs).
        { replace (Z.to_nat (num_infeeds opts) - k)%nat
            with (S (Z.to_nat (num_infeeds opts) - S k))%nat by lia.
          change (repeat (pushed_event client data)
                         (S (Z.to_nat (num_infeeds opts) - S k)))
            with (pushed_event client data
                  :: repeat (pushed_event client data)
                            (Z.to_nat (num_infeeds opts) - S k)).
          rewrite repeat_cons. simpl. rewrite <- app_assoc. reflexivity. }
        simpl in Heq |- *. rewrite <- Heq. exact St.
    + exists b, [], []. rewrite app_nil_r. split; [reflexivity | constructor].
Qed.

Lemma thread_run_push (data : Literal) (k : nat) :
  forall b, exists b',
    thread_run (push_infeeds client data k) b
    = (true, b', repeat (pushed_event client data) k).
Proof.
  destruct feeds as [_ Hpush].
  induction k as [|k IH]; intros b; simpl.
  - exists b. reflexivity.
  - pose proof (Hpush client data b) as Hok.
    destruct (handle (TransferToInfeed client data) b) as [r b1].
    simpl in Hok. subst r. destruct (IH b1) as [b' E]. rewrite E.
    exists b'. reflexivity.
Qed.

(** Waiting for the pool ends the feed. *)
Lemma pool_drain_feed :
  forall fed b q es,
    FeedState client opts infeed_shape fed q es ->
    exists b' evs,
      pool_drain q b = (true, b', evs)
      /\ FeedState client opts infeed_shape fed [] (es ++ evs).
Proof.
  destruct feeds as [Hmake _].
  intros fed b q es Hst. destruct Hst as [| |data k Hk|data].
  - exists b, []. split; [reflexivity | constructor].
  - simpl. destruct (Hmake infeed_shape b) as [data Hdata].
    destruct (handle (MakeFakeLiteral infeed_shape) b) as [r b1].
    simpl in Hdata. subst r.
    destruct (thread_run_push data (Z.to_nat (num_infeeds opts)) b1)
      as [b' E].
    rewrite E. exists b'. eexists. split; [reflexivity|].
    simpl. rewrite app_nil_r. constructor.
  - simpl. destruct (thread_run_push data k b) as [b' E]. rewrite E.
    exists b'. eexists. split; [reflexivity|].
    rewrite app_nil_r. simpl. rewrite <- repeat_app.
    replace (Z.to_nat (num_infeeds opts) - k + k)%nat
      with (Z.to_nat (num_infeeds opts)) by lia.
    constructor.
  - exists b, []. rewrite app_nil_r. split; [reflexivity | constructor].
Qed.

(** A call of the main thread while the feed is under way. *)
Lemma call_feed (c : Call) (w : World) fed es :
  FeedState client opts infeed_shape fed (pool w) es ->
  exists pevs b1 w',
    all_pool pevs
    /\ call c w = (Returned (fst (handle c b1)), w')
    /\ trace w' = trace w ++ pevs ++ [EvCall MainThread c (fst (handle c b1))]
    /\ FeedState client opts infeed_shape fed (pool w') (es ++ pevs).
Proof.
  intros Hst. unfold call.
  destruct (pool_run_feed (hd 0%nat (schedule w)) (backend w) Hst)
    as [b1 [q1 [pevs [E St]]]].
  rewrite E. exists pevs, b1.
  destruct (handle c b1) as [r b2]. eexists.
  split; [eapply pool_run_all_pool; eassumption|].
  split; [reflexivity|]. split; [reflexivity | exact St].
Qed.

Lemma main_events_app (xs ys : list Event) :
  main_events (xs ++ ys) = main_events xs ++ main_events ys.
Proof. apply filter_app. Qed.

Lemma pool_events_app (xs ys : list Event) :
  pool_events (xs ++ ys) = pool_events xs ++ pool_events ys.
Proof. apply filter_app. Qed.

(** The loop of the runs: every run is made and answered, one after the
    other, while the feed goes on. *)
Lemma execute_runs_total (computation : XlaComputation)
    (arguments : list GlobalData) (remaining : nat) :
  (remaining <> 0%nat -> executes_succeed client computation arguments) ->
  forall i result w fed es,
    FeedState client opts infeed_shape fed (pool w) es ->
    exists runs evs w',
      execute_runs client opts computation arguments remaining i result w
      = (Returned (Ok (last_run_value result runs)), w')
      /\ trace w' = trace w ++ evs
      /\ main_events evs = run_events client opts computation arguments i runs
      /\ List.length runs = remaining
      /\ Forall (fun r => run_retrieves r = print_result opts) runs
      /\ FeedState client opts infeed_shape fed (pool w')
                   (es ++ pool_events evs).
Proof.
  induction remaining as [|remaining IH]; intros executes i result w fed es Hst.
  - exists [], [], w. simpl. rewrite !app_nil_r. repeat split; auto.

  - specialize (executes (Nat.neq_succ_0 remaining)).
    specialize (IH (fun _ => executes)).
    simpl. destruct (print_result opts) eqn:Hp.
    + destruct (call_feed
                  (ExecuteAndTransfer client computation arguments
                                      (run_options opts i)) w Hst)
        as [pevs [b1 [w1 [Hall [E [T St]]]]]].
      destruct (executes (run_options opts i) b1)
        as [[[literal profile] Hv] _].
      rewrite Hv in E, T. erewrite bind_returned by exact E.
      destruct (IH (i + 1) (Some literal) w1 fed (es ++ pevs) St)
        as [runs [evs [w' [E' [T' [Hm [Hl [Hr St']]]]]]]].
      simpl fst. rewrite E'.
      exists (Retrieved literal profile :: runs). eexists. exists w'.
      split; [reflexivity|]. split; [rewrite T', T, <- !app_assoc; reflexivity|].
      rewrite !main_events_app, !pool_events_app.
      rewrite (all_pool_main_events Hall), (all_pool_pool_events Hall).
      simpl. rewrite Hm, Hl. rewrite <- app_assoc in St'.
      repeat split; auto.
    + destruct (call_feed
                  (Execute client computation arguments (run_options opts i))
                  w Hst)
        as [pevs [b1 [w1 [Hall [E [T St]]]]]].
      destruct (executes (run_options opts i) b1)
        as [_ [[data profile] Hv]].
      rewrite Hv in E, T. erewrite bind_returned by exact E.
      destruct (IH (i + 1) result w1 fed (es ++ pevs) St)
        as [runs [evs [w' [E' [T' [Hm [Hl [Hr St']]]]]]]].
      rewrite E'.
      exists (NotRetrieved data profile :: runs). eexists. exists w'.
      split; [reflexivity|]. split; [rewrite T', T, <- !app_assoc; reflexivity|].
      rewrite !main_events_app, !pool_events_app.
      rewrite (all_pool_main_events Hall), (all_pool_pool_events Hall).
      simpl. rewrite Hm, Hl. rewrite <- app_assoc in St'.
      repeat split; auto.
Qed.

End Feed.
End Runs.

(** ** What the functions of the tool add to the trace *)
Section ToolTrace.
Context {xla_types : XlaTypes} {xla_lib : XlaLib} {xla_backend : Backend}.
Local Open Scope replay_scope.

Lemma replay_event_pool_closed (retrieving : bool) :
  pool_closed (replay_event retrieving).
Proof. intros c r. reflexivity. Qed.

Create HintDb emits.
Create HintDb quiet.
#[local] Hint Resolve replay_event_pool_closed : emits.
#[local] Hint Resolve emits_ret emits_die emits_destroy_pool : emits.

Ltac emits_call :=
  match goal with
  | |- emits ?P (call ?c) =>
      apply (emits_call (P := P) c);
      [auto with emits | intro; reflexivity]
  end.

Lemma setup_event_pool_closed : pool_closed setup_event.
Proof. intros c r. reflexivity. Qed.

#[local] Hint Resolve setup_event_pool_closed : emits.

Lemma setup_event_replay_event (retrieving : bool) (e : Event) :
  setup_event e = true -> replay_event retrieving e = true.
Proof.
  destruct e as [[|] [] r| |]; simpl; intros E;
    try reflexivity; discriminate.
Qed.

Lemma emits_transfer_recorded (client : Client)
    (protos : list LiteralProto) :
  forall arguments,
    emits setup_event (transfer_recorded client protos arguments).
Proof.
  induction protos as [|proto rest IH]; intros arguments; simpl.
  - auto with emits.
  - destruct (CreateFromProto proto) as [literal|s]; [|auto with emits].
    apply emits_bind; [emits_call|].
    intros [data|s]; auto with emits.
Qed.

Lemma emits_provision_arguments (module : HloSnapshot)
    (client : Client) (opts : Options) (computation : XlaComputation) :
  emits setup_event (provision_arguments module client opts computation).
Proof.
  unfold provision_arguments. destruct (use_fake_data opts).
  - apply emits_bind; [emits_call|]. intros [arguments|]; auto with emits.
  - apply emits_transfer_recorded.
Qed.

Lemma emits_replay_setup (module : HloSnapshot)
    (client : Client) (opts : Options) :
  emits setup_event (replay_setup module client opts).
Proof.
  unfold replay_setup.
  apply emits_bind; [emits_call|]. intros [computation|s]; [|auto with emits].
  apply emits_bind; [apply emits_provision_arguments|].
  intros [arguments|s]; [|auto with emits].
  destruct (decide_infeed opts computation) as [[provide shape]|];
    auto with emits.
Qed.

Lemma loop_event_pool_closed (retrieving : bool) :
  pool_closed (loop_event retrieving).
Proof. intros c r. reflexivity. Qed.

#[local] Hint Resolve loop_event_pool_closed : emits.

Lemma loop_event_replay_event (retrieving : bool) (e : Event) :
  loop_event retrieving e = true -> replay_event retrieving e = true.
Proof.
  destruct e as [[|] [] r| |]; simpl; intros E;
    try reflexivity; try discriminate; exact E.
Qed.

Lemma loop_events_no_schedule (retrieving : bool) (evs : list Event) :
  Forall (fun e => loop_event retrieving e = true) evs ->
  filter is_schedule evs = [].
Proof.
  intros Hall. induction Hall as [|e evs He _ IH]; simpl; [reflexivity|].
  destruct e as [[|] c r| |]; simpl in *; try exact IH; discriminate.
Qed.

Lemma emits_execute_runs (client : Client) (opts : Options)
    (computation : XlaComputation) (arguments : list GlobalData)
    (remaining : nat) :
  forall i result,
    emits (loop_event (print_result opts))
          (execute_runs client opts computation arguments remaining i result).
Proof.
  induction remaining as [|remaining IH]; intros i result; simpl.
  - auto with emits.
  - destruct (print_result opts) eqn:Hp.
    + apply emits_bind; [emits_call|]. intros [v|s]; auto with emits.
    + apply emits_bind; [emits_call|]. intros [v|s]; auto with emits.
Qed.

Lemma emits_replay_run (client : Client) (opts : Options) (s : ReplaySetup) :
  emits (replay_event (print_result opts)) (replay_run client opts s).
Proof.
  unfold replay_run. apply emits_bind.
  - destruct (provide_infeed s); [|auto with emits].
    apply emits_Schedule. reflexivity.
  - intros _. apply emits_bind.
    + eapply emits_weaken; [|apply emits_execute_runs].
      apply loop_event_replay_event.
    + intros result. apply emits_bind; auto with emits.
Qed.

(** Without a closure to schedule, lines 124-181 schedule nothing. *)
Lemma emits_replay_run_unfed (client : Client) (opts : Options)
    (s : ReplaySetup) :
  provide_infeed s = false ->
  emits (loop_event (print_result opts)) (replay_run client opts s).
Proof.
  intros Hp. unfold replay_run. rewrite Hp. apply emits_bind.
  - auto with emits.
  - intros _. apply emits_bind; [apply emits_execute_runs|].
    intros result. apply emits_bind; auto with emits.
Qed.

Lemma emits_ReplayComputation (module : HloSnapshot) (client : Client)
    (opts : Options) :
  emits (replay_event (print_result opts))
        (ReplayComputation module client opts).
Proof.
  unfold ReplayComputation.
  apply emits_bind.
  - eapply emits_weaken; [|apply emits_replay_setup].
    apply setup_event_replay_event.
  - intros [s|s]; [apply emits_replay_run | auto with emits].
Qed.

Lemma setup_events_no_execute (evs : list Event) :
  Forall (fun e => setup_event e = true) evs -> filter is_execute evs = [].
Proof.
  intros Hall. induction Hall as [|e evs He _ IH]; simpl; [reflexivity|].
  destruct e as [[|] [] r| |]; simpl in *; try exact IH; discriminate.
Qed.

Lemma setup_events_no_schedule (evs : list Event) :
  Forall (fun e => setup_event e = true) evs -> filter is_schedule evs = [].
Proof.
  intros Hall. induction Hall as [|e evs He _ IH]; simpl; [reflexivity|].
  destruct e as [[|] c r| |]; simpl in *; try exact IH; discriminate.
Qed.

(** Nothing a replay leaves in the trace is a read of a file or a printed
    line. *)
Lemma replay_events_files_read (retrieving : bool) (evs : list Event) :
  Forall (fun e => replay_event retrieving e = true) evs ->
  files_read evs = [].
Proof.
  intros Hall. induction Hall as [|e evs He _ IH]; simpl; [reflexivity|].
  rewrite IH. destruct e as [[|] [] r| |]; simpl in *;
    try reflexivity; discriminate.
Qed.

Lemma replay_events_printed (retrieving : bool) (evs : list Event) :
  Forall (fun e => replay_event retrieving e = true) evs ->
  printed evs = [].
Proof.
  intros Hall. induction Hall as [|e evs He _ IH]; simpl; [reflexivity|].
  rewrite IH. destruct e as [[|] c r| |]; simpl in *;
    try reflexivity; discriminate.
Qed.


(** Without [print_result] no execute call retrieves the result. *)
Lemma replay_events_no_retrieval (evs : list Event) :
  Forall (fun e => replay_event false e = true) evs ->
  filter is_retrieval evs = [].
Proof.
  intros Hall. induction Hall as [|e evs He _ IH]; simpl; [reflexivity|].
  destruct e as [[|] [] r| |]; simpl in *; try exact IH; discriminate.
Qed.

(** *** The pool stays empty until a closure is scheduled *)
Lemma call_pool_nil (c : Call) (w : World) :
  pool w = [] -> pool (snd (call c w)) = [].
Proof. intros Hq. rewrite (call_quiet c w Hq). reflexivity. Qed.

Lemma quiet_ret {A} (a : A) : quiet (ret a).
Proof.
  intros w Hq. split; [exact Hq|]. exists []. simpl.
  rewrite app_nil_r. auto.
Qed.

Lemma quiet_die {A} : quiet (@die _ _ A).
Proof.
  intros w Hq. split; [exact Hq|]. exists []. simpl.
  rewrite app_nil_r. auto.
Qed.

Lemma quiet_bind {A B} (m : M A) (f : A -> M B) :
  quiet m -> (forall a, quiet (f a)) -> quiet (bind m f).
Proof.
  intros Hm Hf w Hq. unfold bind.
  destruct (Hm w Hq) as [Hq1 [evs1 [T1 P1]]].
  destruct (m w) as [[a|] w1]; simpl in Hq1, T1.
  - destruct (Hf a w1 Hq1) as [Hq2 [evs2 [T2 P2]]].
    split; [exact Hq2|]. exists (evs1 ++ evs2).
    rewrite T2, T1, app_assoc. split; [reflexivity|].
    unfold pool_events in *. rewrite filter_app, P1, P2. reflexivity.
  - simpl. split; [exact Hq1|]. exists evs1. auto.
Qed.

Lemma quiet_call (c : Call) : quiet (call c).
Proof.
  intros w Hq. rewrite (call_quiet c w Hq). simpl.
  split; [reflexivity|]. eexists. split; reflexivity.
Qed.

#[local] Hint Resolve quiet_ret quiet_die : quiet.

Ltac quiet_call :=
  match goal with
  | |- quiet (call ?c) => apply (quiet_call c)
  end.

Lemma quiet_transfer_recorded (client : Client)
    (protos : list LiteralProto) :
  forall arguments, quiet (transfer_recorded client protos arguments).
Proof.
  induction protos as [|proto rest IH]; intros arguments; simpl.
  - auto with quiet.
  - destruct (CreateFromProto proto) as [literal|s]; [|auto with quiet].
    apply quiet_bind; [quiet_call|].
    intros [data|s]; auto with quiet.
Qed.

Lemma quiet_provision_arguments (module : HloSnapshot) (client : Client)
    (opts : Options) (computation : XlaComputation) :
  quiet (provision_arguments module client opts computation).
Proof.
  unfold provision_arguments. destruct (use_fake_data opts).
  - apply quiet_bind; [quiet_call|].
    intros [arguments|]; auto with quiet.
  - apply quiet_transfer_recorded.
Qed.

Lemma quiet_replay_setup (module : HloSnapshot) (client : Client)
    (opts : Options) :
  quiet (replay_setup module client opts).
Proof.
  unfold replay_setup.
  apply quiet_bind; [quiet_call|].
  intros [computation|s]; [|auto with quiet].
  apply quiet_bind; [apply quiet_provision_arguments|].
  intros [arguments|s]; [|auto with quiet].
  destruct (decide_infeed opts computation) as [[provide shape]|];
    auto with quiet.
Qed.

Lemma replay_setup_pool_nil (module : HloSnapshot) (client : Client)
    (opts : Options) (w : World) :
  pool w = [] -> pool (snd (replay_setup module client opts w)) = [].
Proof. intros Hq. apply (quiet_replay_setup module client opts w Hq). Qed.

End ToolTrace.

(** ** The second half of ReplayComputation, on a client that does not fail *)
Section ReplayRun.
Context {xla_types : XlaTypes} {xla_lib : XlaLib} {xla_backend : Backend}.
Local Open Scope replay_scope.

(** The events of the runs are execute calls of the main thread. *)
Lemma run_events_execute (client : Client) (opts : Options)
    (computation : XlaComputation) (arguments : list GlobalData)
    (runs : list RunResult) :
  forall i,
    filter is_execute (run_events client opts computation arguments i runs)
    = run_events client opts computation arguments i runs.
Proof.
  induction runs as [|[literal profile|data profile] runs IH]; intros i; simpl;
    [reflexivity | rewrite IH; reflexivity | rewrite IH; reflexivity].
Qed.

(** A filter that sees no call of the pool thread sees the same on the
    events of the main thread as on all events. *)
Lemma filter_main_events (f : Event -> bool) (evs : list Event) :
  (forall e, is_pool_event e = true -> f e = false) ->
  filter f (main_events evs) = filter f evs.
Proof.
  intros Hf. unfold main_events. induction evs as [|e evs IH]; simpl.
  - reflexivity.
  - destruct (is_pool_event e) eqn:He; simpl.
    + rewrite (Hf e He). exact IH.
    + rewrite IH. reflexivity.
Qed.

Lemma is_execute_not_pool (e : Event) :
  is_pool_event e = true -> is_execute e = false.
Proof. destruct e as [[|] c r| |]; simpl; intros E; try discriminate; reflexivity. Qed.

Lemma is_schedule_not_pool (e : Event) :
  is_pool_event e = true -> is_schedule e = false.
Proof. destruct e as [[|] c r| |]; simpl; intros E; try discriminate; reflexivity. Qed.

(** The value left in [result] is that of the last run. *)
Lemma last_run_value_snoc (runs : list RunResult) (r : RunResult) :
  forall result,
    last_run_value result (runs ++ [r])
    = match r with
      | Retrieved literal _ => Some literal
      | NotRetrieved _ _ => last_run_value result runs
      end.
Proof.
  induction runs as [|[literal profile|data profile] runs IH]; intros result;
    simpl.
  - destruct r; reflexivity.
  - apply IH.
  - apply IH.
Qed.

Lemma last_run_value_not_retrieved (runs : list RunResult) :
  Forall (fun r => run_retrieves r = false) runs ->
  forall result, last_run_value result runs = result.
Proof.
  intros Hall. induction Hall as [|r runs Hr _ IH]; intros result; simpl.
  - reflexivity.
  - destruct r; simpl in Hr; [discriminate | apply IH].
Qed.

Lemma last_run_value_last (retrieving : bool) (earlier : list RunResult)
    (last_run : RunResult) :
  Forall (fun r => run_retrieves r = retrieving) (earlier ++ [last_run]) ->
  last_run_value None (earlier ++ [last_run]) = run_value last_run.
Proof.
  intros Hall. rewrite last_run_value_snoc.
  destruct last_run as [literal profile|data profile]; simpl; [reflexivity|].
  apply Forall_app in Hall. destruct Hall as [Hearlier Hlast].
  apply Forall_inv in Hlast. simpl in Hlast. subst retrieving.
  apply last_run_value_not_retrieved. exact Hearlier.
Qed.

(** Lines 124-181 on a client whose execute calls and infeed do not fail:
    the closure is scheduled if the infeed is to be fed, the runs are made,
    and the function returns once the pool is done. *)
Lemma replay_run_total (client : Client) (opts : Options) (s : ReplaySetup)
    (w : World) :
  infeed_succeeds ->
  (1 <= num_runs opts ->
   executes_succeed client (computation s) (execute_arguments s)) ->
  pool w = [] ->
  exists runs evs w',
    replay_run client opts s w
    = (Returned (Ok (last_run_value None runs)), w')
    /\ trace w' = trace w ++ evs
    /\ main_events evs
       = (if provide_infeed s
          then [EvSchedule (infeed_closure opts (infeed_shape s) client)]
          else [])
         ++ run_events client opts (computation s) (execute_arguments s) 0 runs
    /\ List.length runs = Z.to_nat (num_runs opts)
    /\ Forall (fun r => run_retrieves r = print_result opts) runs
    /\ FeedState client opts (infeed_shape s) (provide_infeed s) []
                 (pool_events evs)
    /\ pool w' = [].
Proof.
  intros Hfeed Hexec Hq. unfold replay_run.
  set (closure := infeed_closure opts (infeed_shape s) client).
  assert (Hstart : exists w0,
             (if provide_infeed s then Schedule closure else ret tt) w
             = (Returned tt, w0)
             /\ trace w0
                = trace w ++ (if provide_infeed s then [EvSchedule closure]
                              else [])
             /\ FeedState client opts (infeed_shape s) (provide_infeed s)
                          (pool w0) []).
  { destruct (provide_infeed s).
    - eexists. split; [reflexivity|]. split; [reflexivity|].
      simpl. rewrite Hq. simpl. constructor.
    - exists w. split; [reflexivity|]. split; [rewrite app_nil_r; reflexivity|].
      rewrite Hq. constructor. }
  destruct Hstart as [w0 [E0 [T0 St0]]].
  erewrite bind_returned by exact E0.
  assert (Hexec' : Z.to_nat (num_runs opts) <> 0%nat ->
                   executes_succeed client (computation s)
                                    (execute_arguments s)).
  { intros Hne. apply Hexec. lia. }
  destruct (execute_runs_total Hfeed Hexec' 0 None w0 St0)
    as [runs [evs1 [w1 [E1 [T1 [Hm [Hl [Hr St1]]]]]]]].
  erewrite bind_returned by exact E1.
  destruct (pool_drain_feed Hfeed (backend w1) St1) as [b2 [evs2 [E2 St2]]].
  pose proof (pool_drain_all_pool _ _ E2) as Hall2.
  unfold bind, destroy_pool. rewrite E2. simpl.
  exists runs. eexists. eexists. split; [reflexivity|]. simpl.
  split; [rewrite T1, T0, <- !app_assoc; reflexivity|].
  rewrite !main_events_app, !pool_events_app.
  rewrite (all_pool_main_events Hall2), (all_pool_pool_events Hall2).
  rewrite Hm, app_nil_r.
  assert (Hsched : main_events (if provide_infeed s then [EvSchedule closure]
                                else [])
                   = (if provide_infeed s then [EvSchedule closure] else [])
                   /\ pool_events (if provide_infeed s
                                   then [EvSchedule closure] else []) = []).
  { destruct (provide_infeed s); split; reflexivity. }
  destruct Hsched as [Hs1 Hs2]. rewrite Hs1, Hs2. simpl.
  repeat split; auto.
Qed.

(** The loop of the runs while the feed goes on, whatever the client
    answers to the execute calls: the loop returns, and schedules
    nothing. *)
Lemma execute_runs_feed (client : Client) (opts : Options)
    (infeed_shape : Shape) (computation : XlaComputation)
    (arguments : list GlobalData) (remaining : nat) :
  infeed_succeeds ->
  forall i result w fed es,
    FeedState client opts infeed_shape fed (pool w) es ->
    exists r evs w',
      execute_runs client opts computation arguments remaining i result w
      = (Returned r, w')
      /\ trace w' = trace w ++ evs
      /\ filter is_schedule evs = []
      /\ FeedState client opts infeed_shape fed (pool w')
                   (es ++ pool_events evs).
Proof.
  intros Hfeed.
  induction remaining as [|remaining IH]; intros i result w fed es Hst.
  - exists (Ok result), [], w. simpl. rewrite !app_nil_r. auto.
  - simpl. destruct (print_result opts).
    + destruct (call_feed Hfeed
                  (ExecuteAndTransfer client computation arguments
                                      (run_options opts i)) w Hst)
        as [pevs [b1 [w1 [Hall [E [T St]]]]]].
      erewrite bind_returned by exact E.
      remember (fst (handle (ExecuteAndTransfer client computation arguments
                                                (run_options opts i)) b1))
        as reply eqn:Hreply.
      clear Hreply E. destruct reply as [v|st].
      * destruct (IH (i + 1) (Some (fst v)) w1 fed (es ++ pevs) St)
          as [r [evs [w' [E' [T' [Hs St']]]]]].
        exists r. eexists. exists w'. split; [exact E'|].
        split; [rewrite T', T, <- !app_assoc; reflexivity|].
        rewrite !filter_app, !pool_events_app, Hs.
        rewrite (all_pool_filter is_schedule is_schedule_not_pool Hall).
        rewrite (all_pool_pool_events Hall).
        rewrite <- app_assoc in St'.
        split; [reflexivity | exact St'].
      * exists (Err st). eexists. exists w1. split; [reflexivity|].
        split; [exact T|].
        rewrite !filter_app, !pool_events_app.
        rewrite (all_pool_filter is_schedule is_schedule_not_pool Hall).
        rewrite (all_pool_pool_events Hall). simpl. rewrite app_nil_r.
        split; [reflexivity | exact St].
    + destruct (call_feed Hfeed
                  (Execute client computation arguments (run_options opts i))
                  w Hst)
        as [pevs [b1 [w1 [Hall [E [T St]]]]]].
      erewrite bind_returned by exact E.
      remember (fst (handle (Execute client computation arguments
                                     (run_options opts i)) b1))
        as reply eqn:Hreply.
      clear Hreply E. destruct reply as [v|st].
      * destruct (IH (i + 1) result w1 fed (es ++ pevs) St)
          as [r [evs [w' [E' [T' [Hs St']]]]]].
        exists r. eexists. exists w'. split; [exact E'|].
        split; [rewrite T', T, <- !app_assoc; reflexivity|].
        rewrite !filter_app, !pool_events_app, Hs.
        rewrite (all_pool_filter is_schedule is_schedule_not_pool Hall).
        rewrite (all_pool_pool_events Hall).
        rewrite <- app_assoc in St'.
        split; [reflexivity | exact St'].
      * exists (Err st). eexists. exists w1. split; [reflexivity|].
        split; [exact T|].
        rewrite !filter_app, !pool_events_app.
        rewrite (all_pool_filter is_schedule is_schedule_not_pool Hall).
        rewrite (all_pool_pool_events Hall). simpl. rewrite app_nil_r.
        split; [reflexivity | exact St].
Qed.

(** Lines 124-181 on a client whose infeed does not fail, whatever the
    execute calls answer: the function returns, after the pool is done. *)
Lemma replay_run_feed (client : Client) (opts : Options) (s : ReplaySetup)
    (w : World) :
  infeed_succeeds -> pool w = [] ->
  exists r evs w',
    replay_run client opts s w = (Returned r, w')
    /\ trace w' = trace w ++ evs
    /\ filter is_schedule evs
       = (if provide_infeed s
          then [EvSchedule (infeed_closure opts (infeed_shape s) client)]
          else [])
    /\ FeedState client opts (infeed_shape s) (provide_infeed s) []
                 (pool_events evs)
    /\ pool w' = [].
Proof.
  intros Hfeed Hq. unfold replay_run.
  set (closure := infeed_closure opts (infeed_shape s) client).
  assert (Hstart : exists w0,
             (if provide_infeed s then Schedule closure else ret tt) w
             = (Returned tt, w0)
             /\ trace w0
                = trace w ++ (if provide_infeed s then [EvSchedule closure]
                              else [])
             /\ FeedState client opts (infeed_shape s) (provide_infeed s)
                          (pool w0) []).
  { destruct (provide_infeed s).
    - eexists. split; [reflexivity|]. split; [reflexivity|].
      simpl. rewrite Hq. simpl. constructor.
    - exists w. split; [reflexivity|]. split; [rewrite app_nil_r; reflexivity|].
      rewrite Hq. constructor. }
  destruct Hstart as [w0 [E0 [T0 St0]]].
  erewrite bind_returned by exact E0.
  destruct (execute_runs_feed (computation s) (execute_arguments s)
                              (Z.to_nat (num_runs opts)) Hfeed 0 None w0 St0)
    as [r [evs1 [w1 [E1 [T1 [Hs St1]]]]]].
  erewrite bind_returned by exact E1.
  destruct (pool_drain_feed Hfeed (backend w1) St1) as [b2 [evs2 [E2 St2]]].
  pose proof (pool_drain_all_pool _ _ E2) as Hall2.
  unfold bind, destroy_pool. rewrite E2. simpl.
  exists r. eexists. eexists. split; [reflexivity|]. simpl.
  split; [rewrite T1, T0, <- !app_assoc; reflexivity|].
  rewrite !filter_app, !pool_events_app, Hs.
  rewrite (all_pool_filter is_schedule is_schedule_not_pool Hall2).
  rewrite (all_pool_pool_events Hall2), app_nil_r.
  assert (Hsched : filter is_schedule (if provide_infeed s
                                       then [EvSchedule closure] else [])
                   = (if provide_infeed s then [EvSchedule closure] else [])
                   /\ pool_events (if provide_infeed s
                                   then [EvSchedule closure] else []) = []).
  { destruct (provide_infeed s); split; reflexivity. }
  destruct Hsched as [Hs1 Hs2]. rewrite Hs1, Hs2. simpl.
  repeat split; auto.
Qed.

(** A whole replay that got through its setup, on a client whose execute
    calls and infeed do not fail. *)
Lemma ReplayComputation_total (module : HloSnapshot) (client : Client)
    (opts : Options) (w w1 : World) (s : ReplaySetup) :
  infeed_succeeds ->
  (1 <= num_runs opts ->
   executes_succeed client (computation s) (execute_arguments s)) ->
  pool w = [] ->
  replay_setup module client opts w = (Returned (Ok s), w1) ->
  exists runs evs w',
    ReplayComputation module client opts w
    = (Returned (Ok (last_run_value None runs)), w')
    /\ trace w' = trace w ++ evs
    /\ filter is_execute evs
       = run_events client opts (computation s) (execute_arguments s) 0 runs
    /\ List.length runs = Z.to_nat (num_runs opts)
    /\ Forall (fun r => run_retrieves r = print_result opts) runs
    /\ printed evs = []
    /\ FeedState client opts (infeed_shape s) (provide_infeed s) []
                 (pool_events evs)
    /\ pool w' = [].
Proof.
  intros Hfeed Hexec Hq Hsetup.
  assert (Hq1 : pool w1 = []).
  { pose proof (replay_setup_pool_nil module client opts w Hq) as P.
    rewrite Hsetup in P. exact P. }
  destruct (emits_replay_setup module client opts w) as [evs0 [T0 F0]].
  rewrite Hsetup in T0. simpl in T0.
  destruct (@replay_run_total client opts s w1 Hfeed Hexec Hq1)
    as [runs [evs [w' [E [T [Hm [Hl [Hr [St Hq']]]]]]]]].
  assert (ERC : ReplayComputation module client opts w
                = (Returned (Ok (last_run_value None runs)), w')).
  { unfold ReplayComputation. erewrite bind_returned by exact Hsetup.
    exact E. }
  exists runs, (evs0 ++ evs), w'.
  split; [exact ERC|]. split; [rewrite T, T0, app_assoc; reflexivity|].
  split; [|split; [exact Hl|split; [exact Hr|split; [|split; [|exact Hq']]]]].
  - rewrite filter_app, (setup_events_no_execute F0).
    rewrite <- (filter_main_events is_execute evs is_execute_not_pool).
    rewrite Hm, filter_app, run_events_execute.
    destruct (provide_infeed s); reflexivity.
  - destruct (emits_ReplayComputation module client opts w) as [evs' [T' F']].
    rewrite ERC in T'. simpl in T'.
    rewrite T, T0, <- app_assoc in T'. apply app_inv_head in T'.
    rewrite T'. eapply replay_events_printed. exact F'.
  - destruct (quiet_replay_setup module client opts w Hq)
      as [_ [evs0' [T0' P0]]].
    rewrite Hsetup in T0'. simpl in T0'. rewrite T0 in T0'.
    apply app_inv_head in T0'. subst evs0'.
    rewrite pool_events_app, P0. exact St.
Qed.

(** A whole replay that got through its setup, on a client whose infeed
    does not fail, whatever the execute calls answer. *)
Lemma ReplayComputation_feed (module : HloSnapshot) (client : Client)
    (opts : Options) (w w1 : World) (s : ReplaySetup) :
  infeed_succeeds ->
  pool w = [] ->
  replay_setup module client opts w = (Returned (Ok s), w1) ->
  exists r evs w',
    ReplayComputation module client opts w = (Returned r, w')
    /\ trace w' = trace w ++ evs
    /\ filter is_schedule evs
       = (if provide_infeed s
          then [EvSchedule (infeed_closure opts (infeed_shape s) client)]
          else [])
    /\ FeedState client opts (infeed_shape s) (provide_infeed s) []
                 (pool_events evs)
    /\ pool w' = [].
Proof.
  intros Hfeed Hq Hsetup.
  destruct (quiet_replay_setup module client opts w Hq)
    as [Hq1 [evs0 [T0 P0]]].
  destruct (emits_replay_setup module client opts w) as [evs0' [T0' F0]].
  rewrite Hsetup in Hq1, T0, T0'. simpl in Hq1, T0, T0'.
  rewrite T0 in T0'. apply app_inv_head in T0'. subst evs0'.
  destruct (@replay_run_feed client opts s w1 Hfeed Hq1)
    as [r [evs [w' [E [T [Hs [St Hq']]]]]]].
  exists r, (evs0 ++ evs), w'.
  split.
  { unfold ReplayComputation. erewrite bind_returned by exact Hsetup.
    exact E. }
  split; [rewrite T, T0, app_assoc; reflexivity|].
  rewrite filter_app, pool_events_app, (setup_events_no_schedule F0), P0.
  auto.
Qed.

(** What the setup leaves in [provide_infeed] and [infeed_shape] is the
    decision on the program it loaded. *)
Lemma replay_setup_decision (module : HloSnapshot) (client : Client)
    (opts : Options) (w w1 : World) (s : ReplaySetup) :
  replay_setup module client opts w = (Returned (Ok s), w1) ->
  decide_infeed opts (computation s)
  = Some (provide_infeed s, infeed_shape s).
Proof.
  unfold replay_setup. intros Hsetup.
  apply bind_inv in Hsetup.
  destruct Hsetup as [[loaded [w2 [_ Hrest]]]|[_ Habs]]; [|discriminate].
  destruct loaded as [computation|st]; [|discriminate].
  apply bind_inv in Hrest.
  destruct Hrest as [[provisioned [w3 [_ Hrest]]]|[_ Habs]]; [|discriminate].
  destruct provisioned as [arguments|st]; [|discriminate].
  destruct (decide_infeed opts computation) as [[provide shape]|] eqn:Hdec;
    [|discriminate].
  inversion Hrest; subst. simpl. exact Hdec.
Qed.

(** A fatal check that fails after the arguments are ready aborts the
    replay, and with it the files that follow. *)
Lemma ReplayComputation_failed_check (module : HloSnapshot) (client : Client)
    (opts : Options) (w w1 w2 : World) (computation : XlaComputation)
    (arguments : list GlobalData) :
  call (LoadSnapshot client module) w = (Returned (Ok computation), w1) ->
  provision_arguments module client opts computation w1
  = (Returned (Ok arguments), w2) ->
  decide_infeed opts computation = None ->
  ReplayComputation module client opts w = (Aborted, w2).
Proof.
  intros Hload Hprov Hdec. unfold ReplayComputation, replay_setup.
  unfold bind at 1. unfold bind at 1. rewrite Hload.
  unfold bind at 1. rewrite Hprov, Hdec. reflexivity.
Qed.

Lemma replay_files_aborted (client : Client) (opts : Options) (arg : string)
    (rest : list string) (exit_status : Z) (w w1 w2 : World)
    (module : HloSnapshot) :
  call (ReadBinaryProto arg) w = (Returned (Ok module), w1) ->
  ReplayComputation module client opts w1 = (Aborted, w2) ->
  replay_files client opts (arg :: rest) exit_status w = (Aborted, w2).
Proof.
  intros Hread Hreplay. simpl. unfold replay_file.
  unfold bind at 1. unfold bind at 1. rewrite Hread.
  unfold bind at 1. rewrite Hreplay. reflexivity.
Qed.

End ReplayRun.

(** ** The loop over the files *)
Section Files.
Context {xla_types : XlaTypes} {xla_lib : XlaLib} {xla_backend : Backend}.
Local Open Scope replay_scope.

Lemma files_read_app (xs ys : list Event) :
  files_read (xs ++ ys) = files_read xs ++ files_read ys.
Proof. apply flat_map_app. Qed.


Lemma printed_app (xs ys : list Event) :
  printed (xs ++ ys) = printed xs ++ printed ys.
Proof. apply flat_map_app. Qed.

Lemma all_pool_files_read (evs : list Event) :
  all_pool evs -> files_read evs = [].
Proof.
  apply all_pool_flat_map. intros [[|] c r| |]; simpl; intros E;
    try discriminate; reflexivity.
Qed.


Lemma all_pool_printed (evs : list Event) :
  all_pool evs -> printed evs = [].
Proof.
  apply all_pool_flat_map. intros [[|] c r| |]; simpl; intros E;
    try discriminate; reflexivity.
Qed.

(** A report only prints result lines on stdout. *)
Lemma emits_report (arg : string) (snapshot : HloSnapshot) (result : Literal) :
  emits report_event (report arg snapshot result).
Proof.
  unfold report. apply emits_bind; [apply emits_print; reflexivity|].
  intros _. destruct (SnapshotResult snapshot) as [recorded|];
    [|apply emits_ret].
  destruct (CreateFromProto recorded) as [literal|st];
    [apply emits_print; reflexivity | apply emits_die].
Qed.




Lemma call_returned_trace (c : Call) (w w' : World) (r : Reply c) :
  call c w = (Returned r, w') ->
  exists pevs,
    all_pool pevs /\ trace w' = trace w ++ pevs ++ [EvCall MainThread c r].
Proof.
  intros E.
  destruct (call_inv c w) as [pevs [Hall [[r0 [w0 [E0 T]]]|[w0 [E0 _]]]]];
    rewrite E0 in E; [|discriminate].
  inversion E; subst w0. exists pevs. split; [exact Hall|].
  rewrite T. repeat f_equal.
  apply (f_equal (fun p => match fst p with
                           | Returned x => x
                           | Aborted => r0
                           end)) in E. exact E.
Qed.

(** *** Without print_result *)
Lemma execute_runs_unretrieved (client : Client) (opts : Options)
    (computation : XlaComputation) (arguments : list GlobalData)
    (remaining : nat) :
  print_result opts = false ->
  forall i result w r w',
    execute_runs client opts computation arguments remaining i result w
    = (Returned (Ok r), w') ->
    r = result.
Proof.
  intros Hp.
  induction remaining as [|remaining IH]; intros i result w r w' Hrun;
    simpl in Hrun.
  - inversion Hrun. reflexivity.
  - rewrite Hp in Hrun. apply bind_inv in Hrun.
    destruct Hrun as [[reply [w1 [_ Hrest]]]|[_ Habs]]; [|discriminate].
    destruct reply as [v|st]; [|discriminate].
    eapply IH. exact Hrest.
Qed.

Lemma ReplayComputation_unretrieved (module : HloSnapshot) (client : Client)
    (opts : Options) (w w' : World) (r : option Literal) :
  print_result opts = false ->
  ReplayComputation module client opts w = (Returned (Ok r), w') ->
  r = None.
Proof.
  intros Hp Hreplay. unfold ReplayComputation in Hreplay.
  apply bind_inv in Hreplay.
  destruct Hreplay as [[setup [w1 [_ Hrest]]]|[_ Habs]]; [|discriminate].
  destruct setup as [s|st]; [|discriminate].
  unfold replay_run in Hrest. apply bind_inv in Hrest.
  destruct Hrest as [[u [w2 [_ Hrest]]]|[_ Habs]]; [|discriminate].
  apply bind_inv in Hrest.
  destruct Hrest as [[result [w3 [Hruns Hrest]]]|[_ Habs]]; [|discriminate].
  apply bind_inv in Hrest.
  destruct Hrest as [[u' [w4 [_ Hrest]]]|[_ Habs]]; [|discriminate].
  inversion Hrest; subst result w4.
  eapply execute_runs_unretrieved; eassumption.
Qed.

(** One file without print_result: nothing goes to stdout. *)
Lemma replay_file_unretrieved (client : Client) (opts : Options)
    (arg : string) (exit_status : Z) (w : World) :
  print_result opts = false ->
  exists evs,
    trace (snd (replay_file client opts arg exit_status w)) = trace w ++ evs
    /\ Forall (fun p => fst p = stderr) (printed evs).
Proof.
  intros Hp. unfold replay_file. unfold bind at 1.
  destruct (call_inv (ReadBinaryProto arg) w)
    as [pevs [Hall [[status [w1 [E T]]]|[w1 [E T]]]]]; rewrite E.
  - destruct status as [snapshot|st].
    + unfold bind at 1.
      destruct (emits_ReplayComputation snapshot client opts w1)
        as [evs1 [T1 F1]].
      pose proof (replay_events_printed _ F1) as P1.
      destruct (ReplayComputation snapshot client opts w1)
        as [[[[result|]|st]|] w2] eqn:Hreplay; simpl in T1.
      * pose proof (ReplayComputation_unretrieved _ _ _ _ Hp Hreplay).
        discriminate.
      * simpl. eexists. split; [rewrite T1, T, <- !app_assoc; reflexivity|].
        rewrite !printed_app, (all_pool_printed Hall), P1. constructor.
      * simpl. eexists.
        split; [rewrite T1, T, <- !app_assoc; reflexivity|].
        rewrite !printed_app, (all_pool_printed Hall), P1. simpl.
        constructor; [reflexivity | constructor].
      * simpl. eexists. split; [rewrite T1, T, <- !app_assoc; reflexivity|].
        rewrite !printed_app, (all_pool_printed Hall), P1. constructor.
    + simpl. eexists. split; [rewrite T, <- !app_assoc; reflexivity|].
      rewrite !printed_app, (all_pool_printed Hall). simpl.
      constructor; [reflexivity | constructor].
  - simpl. exists pevs. split; [exact T|].
    rewrite (all_pool_printed Hall). constructor.
Qed.

(** *** The scan for infeed instructions *)
Lemma feed_scan_app (xs ys : list Shape) :
  forall st,
    feed_scan (xs ++ ys) st
    = match feed_scan xs st with
      | Some st' => feed_scan ys st'
      | None => None
      end.
Proof.
  induction xs as [|x xs IH]; intros st; simpl.
  - reflexivity.
  - destruct (fst st); [reflexivity | apply IH].
Qed.

Lemma scan_instructions_feed_scan (instrs : list HloInstructionProto) :
  forall st,
    scan_instructions instrs st
    = feed_scan (map (fun i => shape i) (filter is_infeed instrs)) st.
Proof.
  induction instrs as [|instruction rest IH]; intros st; simpl.
  - reflexivity.
  - unfold is_infeed at 1.
    destruct (String.eqb (opcode instruction) HloOpcodeString_kInfeed); simpl.
    + destruct (fst st); [reflexivity | apply IH].
    + apply IH.
Qed.

Lemma scan_computations_feed_scan (comps : list HloComputationProto) :
  forall st,
    scan_computations comps st
    = feed_scan (map (fun i => shape i)
                     (filter is_infeed
                             (flat_map (fun comp => instructions comp) comps)))
                st.
Proof.
  induction comps as [|comp rest IH]; intros st; simpl.
  - reflexivity.
  - rewrite filter_app, map_app, feed_scan_app.
    rewrite <- scan_instructions_feed_scan.
    destruct (scan_instructions (instructions comp) st) as [st'|];
      [apply IH | reflexivity].
Qed.


End Files.

(** * The claims *)
Section Claims.
Context {xla_types : XlaTypes} {xla_lib : XlaLib} {xla_backend : Backend}.
Local Open Scope replay_scope.

(** C1.  With [num_runs = N >= 1], on a client whose execute calls succeed
    (and whose infeed does not fail), a replay that got through its setup
    makes exactly N execute calls on the main thread, one after the other
    -- run [i] with the options of run [i] -- and returns the result value
    of the last of them; the values of the earlier runs are not part of
    what is returned.  The pool thread makes no execute call: all it does
    is the feed, if there is one. *)
Theorem ReplayComputation_returns_last_run :
  forall (module : HloSnapshot) (client : Client) (opts : Options)
         (w w1 : World) (s : ReplaySetup),
    1 <= num_runs opts ->
    executes_succeed client (computation s) (execute_arguments s) ->
    infeed_succeeds ->
    pool w = [] ->
    replay_setup module client opts w = (Returned (Ok s), w1) ->
    exists earlier last_run evs w',
      ReplayComputation module client opts w
      = (Returned (Ok (run_value last_run)), w')
      /\ trace w' = trace w ++ evs
      /\ filter is_execute evs
         = run_events client opts (computation s) (execute_arguments s) 0
                      (earlier ++ [last_run])
      /\ Z.of_nat (List.length (earlier ++ [last_run])) = num_runs opts
      /\ (if provide_infeed s
          then exists data,
              pool_events evs
              = made_event (infeed_shape s) data
                :: repeat (pushed_event client data)
                          (Z.to_nat (num_infeeds opts))
          else pool_events evs = []).
Proof.
  intros module client opts w w1 s Hn Hexec Hfeed Hq Hsetup.
  destruct (@ReplayComputation_total _ _ _ module client opts w w1 s Hfeed
                                     (fun _ => Hexec) Hq Hsetup)
    as [runs [evs [w' [E [T [Hx [Hl [Hr [Hpr [St _]]]]]]]]]].
  assert (Hne : runs <> []).
  { intros ->. simpl in Hl. lia. }
  destruct (exists_last Hne) as [earlier [last_run ->]].
  rewrite (last_run_value_last _ _ Hr) in E.
  exists earlier, last_run, evs, w'.
  split; [exact E|]. split; [exact T|]. split; [exact Hx|].
  split; [rewrite Hl; lia|].
  destruct (provide_infeed s).
  - inversion St as [| | |data Hfed Hpool Hevs]. exists data. reflexivity.
  - inversion St. reflexivity.
Qed.

(** C2, as the code has it.  The decision on the infeed: a shape given on
    the command line that parses is used, and the program is not looked
    at; else, if the shape is to be derived, the infeed instructions of
    the program are scanned, and none means no infeed, one means that
    instruction's shape, and two or more fail a fatal check; else there is
    no infeed.  Without infeed no closure is scheduled.  The failed check
    is no error of the file: it aborts the process, and the files that
    follow are not replayed. *)
Theorem infeed_decision :
  forall (opts : Options) (program : XlaComputation),
    (fake_infeed_shape opts <> "" ->
     forall infeed_shape,
       ParseShapeString (fake_infeed_shape opts) = Ok infeed_shape ->
       decide_infeed opts program = Some (true, infeed_shape))
    /\ (fake_infeed_shape opts = "" -> generate_fake_infeed opts = true ->
        match infeed_shapes program with
        | [] => decide_infeed opts program = Some (false, Shape_default)
        | [infeed_shape] =>
            decide_infeed opts program = Some (true, infeed_shape)
        | _ :: _ :: _ => decide_infeed opts program = None
        end)
    /\ (fake_infeed_shape opts = "" -> generate_fake_infeed opts = false ->
        decide_infeed opts program = Some (false, Shape_default))
    /\ (forall module client w s w1,
           replay_setup module client opts w = (Returned (Ok s), w1) ->
           decide_infeed opts (computation s)
           = Some (provide_infeed s, infeed_shape s))
    /\ (forall client s w,
           provide_infeed s = false ->
           exists evs,
             trace (snd (replay_run client opts s w)) = trace w ++ evs
             /\ filter is_schedule evs = [])
    /\ (decide_infeed opts program = None ->
        forall module client arguments arg rest exit_status w0 w w1 w2,
          call (ReadBinaryProto arg) w0 = (Returned (Ok module), w) ->
          call (LoadSnapshot client module) w
          = (Returned (Ok program), w1) ->
          provision_arguments module client opts program w1
          = (Returned (Ok arguments), w2) ->
          replay_files client opts (arg :: rest) exit_status w0
          = (Aborted, w2)).
Proof.
  intros opts program. unfold decide_infeed.
  split; [|split; [|split; [|split; [|split]]]].
  - intros Hne infeed_shape Hparse.
    destruct (String.eqb_spec (fake_infeed_shape opts) "") as [E|_];
      [contradiction|].
    simpl. rewrite Hparse. reflexivity.
  - intros He Hgen. rewrite He, Hgen. simpl.
    rewrite scan_computations_feed_scan. unfold infeed_shapes.
    fold is_infeed.
    destruct (map (fun i => shape i)
                  (filter is_infeed
                          (flat_map (fun comp => instructions comp)
                                    (computations (proto program)))))
      as [|s1 [|s2 rest]]; reflexivity.
  - intros He Hgen. rewrite He, Hgen. reflexivity.
  - intros module client w s w1 Hsetup.
    eapply replay_setup_decision. exact Hsetup.
  - intros client s w Hp.
    destruct (@emits_replay_run_unfed _ _ _ client opts s Hp w) as [evs [T F]].
    exists evs. split; [exact T|].
    eapply loop_events_no_schedule. exact F.
  - intros Hdec module client arguments arg rest exit_status w0 w w1 w2
           Hread Hload Hprov.
    eapply replay_files_aborted; [exact Hread|].
    eapply ReplayComputation_failed_check; eassumption.
Qed.

(** C3.  When the setup of a replay decides that the infeed is to be
    fed, the replay schedules exactly one closure, and by the time it
    returns the pool thread has made exactly these calls, in this order,
    whatever the interleaving with the runs: one fake literal for the
    infeed shape, then [num_infeeds] transfers of that same literal to the
    infeed (none when [num_infeeds] is not positive); the pool is then
    empty. *)
Theorem infeed_closure_pushes :
  forall (module : HloSnapshot) (client : Client) (opts : Options)
         (w w1 : World) (s : ReplaySetup),
    provide_infeed s = true ->
    infeed_succeeds ->
    pool w = [] ->
    replay_setup module client opts w = (Returned (Ok s), w1) ->
    exists data r evs w',
      ReplayComputation module client opts w = (Returned r, w')
      /\ trace w' = trace w ++ evs
      /\ filter is_schedule evs
         = [EvSchedule (infeed_closure opts (infeed_shape s) client)]
      /\ pool_events evs
         = made_event (infeed_shape s) data
           :: repeat (pushed_event client data) (Z.to_nat (num_infeeds opts))
      /\ pool w' = [].
Proof.
  intros module client opts w w1 s Hp Hfeed Hq Hsetup.
  destruct (@ReplayComputation_feed _ _ _ module client opts w w1 s
                                    Hfeed Hq Hsetup)
    as [r [evs [w' [E [T [Hs [St Hq']]]]]]].
  rewrite Hp in Hs, St.
  inversion St as [| | |data Hfed Hpool Hevs].
  exists data, r, evs, w'.
  repeat split; try assumption. symmetry. assumption.
Qed.



(** C6.  Without [print_result]: a replay never returns a result value;
    it never makes the execute call that retrieves the result; the file
    gets no line on stdout; and on a client that does not fail, the
    replay that got through its setup still makes its [num_runs] execute
    calls, none of them retrieving, and returns no value. *)
Theorem unprinted_result_is_not_retrieved :
  forall (module : HloSnapshot) (client : Client) (opts : Options),
    print_result opts = false ->
    (forall w r w',
        ReplayComputation module client opts w = (Returned (Ok r), w') ->
        r = None)
    /\ (forall w, exists evs,
           trace (snd (ReplayComputation module client opts w))
           = trace w ++ evs
           /\ filter is_retrieval evs = [])
    /\ (forall arg exit_status w, exists evs,
           trace (snd (replay_file client opts arg exit_status w))
           = trace w ++ evs
           /\ Forall (fun p => fst p = stderr) (printed evs))
    /\ (forall w w1 s,
           infeed_succeeds ->
           executes_succeed client (computation s) (execute_arguments s) ->
           pool w = [] ->
           replay_setup module client opts w = (Returned (Ok s), w1) ->
           exists runs evs w',
             ReplayComputation module client opts w = (Returned (Ok None), w')
             /\ trace w' = trace w ++ evs
             /\ filter is_execute evs
                = run_events client opts (computation s)
                             (execute_arguments s) 0 runs
             /\ List.length runs = Z.to_nat (num_runs opts)
             /\ Forall (fun r => run_retrieves r = false) runs).
Proof.
  intros module client opts Hp. split; [|split; [|split]].
  - intros w r w' Hreplay.
    eapply ReplayComputation_unretrieved; eassumption.
  - intros w.
    destruct (emits_ReplayComputation module client opts w) as [evs [T F]].
    exists evs. split; [exact T|]. rewrite Hp in F.
    apply replay_events_no_retrieval. exact F.
  - intros arg exit_status w. apply replay_file_unretrieved. exact Hp.
  - intros w w1 s Hfeed Hexec Hq Hsetup.
    destruct (@ReplayComputation_total _ _ _ module client opts w w1 s Hfeed
                                       (fun _ => Hexec) Hq Hsetup)
      as [runs [evs [w' [E [T [Hx [Hl [Hr [Hpr [St _]]]]]]]]]].
    rewrite Hp in Hr.
    rewrite (last_run_value_not_retrieved Hr) in E.
    exists runs, evs, w'. auto.
Qed.

(** C7.  With [use_fake_data] the arguments are made from the loaded
    computation alone: on two snapshots, whatever their recorded
    arguments, lines 88-99 give the same outcome and leave the same world,
    and the only call the main thread makes there is
    MakeFakeArgumentsOrDie on the computation.  So, on a client that loads
    the same program from both snapshots, the setups of the two replays
    end alike: same program, same arguments, same decision on the infeed,
    same state of the client. *)
Theorem fake_arguments_ignore_recorded :
  forall (module1 module2 : HloSnapshot) (client : Client) (opts : Options)
         (computation : XlaComputation) (w : World),
    use_fake_data opts = true ->
    provision_arguments module1 client opts computation w
    = provision_arguments module2 client opts computation w
    /\ (exists evs,
          trace (snd (provision_arguments module1 client opts computation w))
          = trace w ++ evs
          /\ (main_events evs = []
              \/ exists made,
                  main_events evs
                  = [EvCall MainThread
                            (MakeFakeArgumentsOrDie computation client)
                            made]))
    /\ ((forall b,
           handle (LoadSnapshot client module1) b
           = handle (LoadSnapshot client module2) b) ->
        fst (replay_setup module1 client opts w)
        = fst (replay_setup module2 client opts w)
        /\ backend (snd (replay_setup module1 client opts w))
           = backend (snd (replay_setup module2 client opts w))).
Proof.
  intros module1 module2 client opts computation w Hfake.
  split; [|split].
  - unfold provision_arguments. rewrite Hfake. reflexivity.
  - unfold provision_arguments. rewrite Hfake. unfold bind.
    destruct (call_inv (MakeFakeArgumentsOrDie computation client) w)
      as [pevs [Hall [[made [w1 [E T]]]|[w1 [E T]]]]]; rewrite E.
    + exists (pevs ++ [EvCall MainThread
                              (MakeFakeArgumentsOrDie computation client)
                              made]).
      split; [destruct made; exact T|].
      right. exists made.
      rewrite main_events_app, (all_pool_main_events Hall). reflexivity.
    + exists pevs. split; [exact T|]. left. apply all_pool_main_events.
      exact Hall.
  - intros Hload. unfold replay_setup, provision_arguments.
    rewrite Hfake. unfold bind, call.
    destruct (pool_run (hd 0%nat (schedule w)) (backend w) (pool w))
      as [[[alive b1] q1] evs1].
    destruct alive; [|split; reflexivity].
    rewrite (Hload b1).
    destruct (handle (LoadSnapshot client module2) b1) as [loaded b2].
    destruct loaded as [program|st]; [|split; reflexivity].
    simpl.
    destruct (pool_run (hd 0%nat (tl (schedule w))) b2 q1)
      as [[[alive' b3] q3] evs3].
    destruct alive'; [|split; reflexivity].
    destruct (handle (MakeFakeArgumentsOrDie program client) b3)
      as [made b4].
    destruct made as [arguments|]; [|split; reflexivity].
    destruct (decide_infeed opts program) as [[provide shape]|];
      split; reflexivity.
Qed.

(** C8, as the code has it.  For a file whose replay returned a result
    value, the line of the computed result (its shape and its text) goes
    to stdout; a snapshot without recorded result gets nothing more; a
    recorded result that deserializes gets the "was" line, with its shape
    and its text, right after; a recorded result that does not deserialize
    aborts the process after the first line.  The two values are not
    compared: [exit_status] is what it was before the file. *)
Theorem report_of_a_result :
  forall (client : Client) (opts : Options) (arg : string) (exit_status : Z)
         (snapshot : HloSnapshot) (result : Literal) (w w1 w2 : World),
    call (ReadBinaryProto arg) w = (Returned (Ok snapshot), w1) ->
    ReplayComputation snapshot client opts w1
    = (Returned (Ok (Some result)), w2) ->
    exists w',
      trace w'
      = trace w2
        ++ EvPrint stdout (computed_line arg snapshot result)
        :: match SnapshotResult snapshot with
           | Some recorded =>
               match CreateFromProto recorded with
               | Ok literal =>
                   [EvPrint stdout (recorded_line recorded literal)]
               | Err _ => []
               end
           | None => []
           end
      /\ replay_file client opts arg exit_status w
         = (match SnapshotResult snapshot with
            | Some recorded =>
                match CreateFromProto recorded with
                | Ok _ => Returned exit_status
                | Err _ => Aborted
                end
            | None => Returned exit_status
            end, w').
Proof.
  intros client opts arg exit_status snapshot result w w1 w2 Hread Hreplay.
  unfold replay_file. unfold bind at 1. rewrite Hread.
  unfold bind at 1. rewrite Hreplay.
  unfold report, computed_line, recorded_line, bind, print, ret, die.
  destruct (SnapshotResult snapshot) as [recorded|]; simpl.
  - destruct (CreateFromProto recorded) as [literal|st]; simpl.
    + eexists. split; [|reflexivity]. simpl. rewrite <- app_assoc.
      reflexivity.
    + eexists. split; [|reflexivity]. reflexivity.
  - eexists. split; [|reflexivity]. reflexivity.
Qed.

(** C9.  A shape given on the command line that does not parse fails a
    fatal check once the snapshot is loaded and its arguments are ready:
    the replay does not return a status, the process is aborted; no line
    is printed for the file, and the files after it are never read. *)
Theorem malformed_infeed_shape_aborts :
  forall (client : Client) (opts : Options) (arg : string)
         (rest : list string) (exit_status : Z) (module : HloSnapshot)
         (computation : XlaComputation) (arguments : list GlobalData)
         (st : Status) (w0 w w1 w2 : World),
    fake_infeed_shape opts <> "" ->
    ParseShapeString (fake_infeed_shape opts) = Err st ->
    call (ReadBinaryProto arg) w0 = (Returned (Ok module), w) ->
    call (LoadSnapshot client module) w = (Returned (Ok computation), w1) ->
    provision_arguments module client opts computation w1
    = (Returned (Ok arguments), w2) ->
    ReplayComputation module client opts w = (Aborted, w2)
    /\ replay_files client opts (arg :: rest) exit_status w0 = (Aborted, w2)
    /\ exists evs,
        trace w2 = trace w0 ++ evs
        /\ files_read evs = [arg]
        /\ printed evs = [].
Proof.
  intros client opts arg rest exit_status module computation arguments st
         w0 w w1 w2 Hne Hparse Hread Hload Hprov.
  assert (Hdec : decide_infeed opts computation = None).
  { unfold decide_infeed.
    destruct (String.eqb_spec (fake_infeed_shape opts) "") as [E|_];
      [contradiction|].
    simpl. rewrite Hparse. reflexivity. }
  pose proof (ReplayComputation_failed_check _ _ Hload Hprov Hdec) as Habort.
  split; [exact Habort|]. split.
  - eapply replay_files_aborted; eassumption.
  - destruct (@call_returned_trace _ _ _ _ _ _ Hread) as [pevs0 [Hall0 T0]].
    destruct (@call_returned_trace _ _ _ _ _ _ Hload) as [pevs1 [Hall1 T1]].
    destruct (emits_provision_arguments module client opts computation w1)
      as [evs2 [T2 F2]].
    rewrite Hprov in T2. simpl in T2.
    assert (F2' : Forall (fun e => replay_event true e = true) evs2).
    { eapply Forall_impl; [|exact F2]. apply setup_event_replay_event. }
    eexists. split; [rewrite T2, T1, T0, <- !app_assoc; reflexivity|].
    rewrite !files_read_app, !printed_app.
    rewrite (all_pool_files_read Hall0), (all_pool_files_read Hall1).
    rewrite (all_pool_printed Hall0), (all_pool_printed Hall1).
    rewrite (replay_events_files_read _ F2'), (replay_events_printed _ F2').
    split; reflexivity.
Qed.

(** C10.  [num_runs] is not checked: when it is zero or negative, a
    replay that got through its setup makes no execute call and returns
    success without a value, and the file gets no line at all, on either
    stream; [exit_status] is left as it was. *)
Theorem no_runs_no_result :
  forall (client : Client) (opts : Options) (arg : string) (exit_status : Z)
         (snapshot : HloSnapshot) (s : ReplaySetup) (w w1 w2 : World),
    num_runs opts <= 0 ->
    infeed_succeeds ->
    pool w = [] ->
    call (ReadBinaryProto arg) w = (Returned (Ok snapshot), w1) ->
    replay_setup snapshot client opts w1 = (Returned (Ok s), w2) ->
    exists evs w',
      ReplayComputation snapshot client opts w1 = (Returned (Ok None), w')
      /\ trace w' = trace w1 ++ evs
      /\ filter is_execute evs = []
      /\ printed evs = []
      /\ replay_file client opts arg exit_status w
         = (Returned exit_status, w').
Proof.
  intros client opts arg exit_status snapshot s w w1 w2 Hn Hfeed Hq Hread
         Hsetup.
  assert (Hq1 : pool w1 = []).
  { pose proof (call_pool_nil (ReadBinaryProto arg) w Hq) as P.
    rewrite Hread in P. exact P. }
  assert (Hexec : 1 <= num_runs opts ->
                  executes_succeed client (computation s)
                                   (execute_arguments s)) by lia.
  destruct (@ReplayComputation_total _ _ _ snapshot client opts w1 w2 s Hfeed
                                     Hexec Hq1 Hsetup)
    as [runs [evs [w' [E [T [Hx [Hl [Hr [Hpr [St _]]]]]]]]]].
  assert (Hruns : runs = []).
  { destruct runs; [reflexivity|]. simpl in Hl. lia. }
  subst runs. simpl in E, Hx.
  exists evs, w'. repeat split; try assumption.
  unfold replay_file. unfold bind at 1. rewrite Hread.
  unfold bind at 1. rewrite E. reflexivity.
Qed.

End Claims.

(** * The claims on the small client *)
Section ToyRuns.
#[local] Existing Instance toy_types.
#[local] Existing Instance toy_lib.
#[local] Existing Instance toy_backend.

Lemma toy_infeed_succeeds : infeed_succeeds.
Proof.
  split.
  - intros infeed_shape b. eexists. reflexivity.
  - intros client data b. reflexivity.
Qed.

Lemma toy_transfers_succeed : transfers_succeed.
Proof. intros client literal b. eexists. reflexivity. Qed.

Lemma toy_executes_succeed (client : Client) (computation : XlaComputation)
    (arguments : list GlobalData) :
  String.eqb (name (proto computation)) "crash" = false ->
  executes_succeed client computation arguments.
Proof.
  intros Hname execution_options b. simpl. rewrite Hname.
  split; eexists; reflexivity.
Qed.

(** C1 on two runs of the program with an infeed, fed five times while
    the runs are made: the value returned is that of the second run. *)
Lemma ReplayComputation_returns_last_run_witness :
  exists earlier last_run evs w',
    ReplayComputation snap_infeed toy_client (toy_infeed_options 5)
                      (toy_world [0; 0; 2; 1]%nat)
    = (Returned (Ok (run_value last_run)), w')
    /\ trace w' = trace (toy_world [0; 0; 2; 1]%nat) ++ evs
    /\ filter is_execute evs
       = run_events toy_client (toy_infeed_options 5)
                    (toy_computation snap_infeed) [] 0 (earlier ++ [last_run])
    /\ Z.of_nat (List.length (earlier ++ [last_run])) = 2
    /\ exists data,
        pool_events evs
        = made_event "f32[2]" data :: repeat (pushed_event toy_client data) 5.
Proof.
  apply (@ReplayComputation_returns_last_run toy_types toy_lib toy_backend
           snap_infeed toy_client (toy_infeed_options 5)
           (toy_world [0; 0; 2; 1]%nat)
           (snd (replay_setup snap_infeed toy_client (toy_infeed_options 5)
                              (toy_world [0; 0; 2; 1]%nat)))
           {| computation := toy_computation snap_infeed;
              execute_arguments := [];
              provide_infeed := true;
              infeed_shape := "f32[2]" |}).
  - simpl. lia.
  - apply toy_executes_succeed. reflexivity.
  - exact toy_infeed_succeeds.
  - reflexivity.
  - reflexivity.
Defined.

(** C2 on the program with one infeed instruction, with the shape
    derived from it. *)
Lemma infeed_decision_witness :
  decide_infeed (toy_infeed_options 5) (toy_computation snap_infeed)
  = Some (true, "f32[2]").
Proof.
  exact (proj1 (proj2 (infeed_decision (toy_infeed_options 5)
                                       (toy_computation snap_infeed)))
               eq_refl eq_refl).
Defined.

(** C2 as stated fails.  Two infeed instructions: the process is aborted while the first file
    is replayed; nothing is printed for it and the second file is never
    read. *)
Lemma ambiguous_infeed_stops_the_batch :
  infeed_shapes (toy_computation snap_two_infeeds) = ["f32[2]"; "f32[3]"]
  /\ fst (RealMain ["fed_twice.pb"; "plain.pb"] (toy_infeed_options 3)
                   (toy_world []))
     = Aborted
  /\ files_read
       (trace (snd (RealMain ["fed_twice.pb"; "plain.pb"]
                             (toy_infeed_options 3) (toy_world []))))
     = ["fed_twice.pb"]
  /\ printed
       (trace (snd (RealMain ["fed_twice.pb"; "plain.pb"]
                             (toy_infeed_options 3) (toy_world []))))
     = [].
Proof. vm_compute. repeat split. Qed.

(** C3 on five feeds of the inferred shape, under a schedule that lets
    the pool thread run between the execute calls. *)
Lemma infeed_closure_pushes_witness :
  exists data r evs w',
    ReplayComputation snap_infeed toy_client (toy_infeed_options 5)
                      (toy_world [0; 1; 0; 3]%nat)
    = (Returned r, w')
    /\ trace w' = trace (toy_world [0; 1; 0; 3]%nat) ++ evs
    /\ filter is_schedule evs
       = [EvSchedule (infeed_closure (toy_infeed_options 5) "f32[2]"
                                     toy_client)]
    /\ pool_events evs
       = made_event "f32[2]" data :: repeat (pushed_event toy_client data) 5
    /\ pool w' = [].
Proof.
  apply (@infeed_closure_pushes toy_types toy_lib toy_backend
           snap_infeed toy_client (toy_infeed_options 5)
           (toy_world [0; 1; 0; 3]%nat)
           (snd (replay_setup snap_infeed toy_client (toy_infeed_options 5)
                              (toy_world [0; 1; 0; 3]%nat)))
           {| computation := toy_computation snap_infeed;
              execute_arguments := [];
              provide_infeed := true;
              infeed_shape := "f32[2]" |}).
  - reflexivity.
  - exact toy_infeed_succeeds.
  - reflexivity.
  - reflexivity.
Defined.





(** C6 on two runs without print_result. *)
Lemma unprinted_result_is_not_retrieved_witness :
  exists runs evs w',
    ReplayComputation snap_plain toy_client (toy_options 2 false) (toy_world [])
    = (Returned (Ok None), w')
    /\ trace w' = trace (toy_world []) ++ evs
    /\ filter is_execute evs
       = run_events toy_client (toy_options 2 false) (toy_computation snap_plain)
                    [] 0 runs
    /\ List.length runs = 2%nat
    /\ Forall (fun r => run_retrieves r = false) runs.
Proof.
  apply (proj2 (proj2 (proj2
           (@unprinted_result_is_not_retrieved toy_types toy_lib toy_backend
              snap_plain toy_client (toy_options 2 false) eq_refl)))
           (toy_world [])
           (snd (replay_setup snap_plain toy_client (toy_options 2 false)
                              (toy_world [])))
           {| computation := toy_computation snap_plain;
              execute_arguments := [];
              provide_infeed := false;
              infeed_shape := "" |}).
  - exact toy_infeed_succeeds.
  - apply toy_executes_succeed. reflexivity.
  - reflexivity.
  - reflexivity.
Defined.

(** C7 on fake arguments for a snapshot without recorded argument and
    the same program with one. *)
Lemma fake_arguments_ignore_recorded_witness :
  provision_arguments snap_plain toy_client toy_fake_options
                      (toy_computation snap_plain) (toy_world [])
  = provision_arguments snap_plain_recorded toy_client toy_fake_options
                        (toy_computation snap_plain) (toy_world [])
  /\ fst (replay_setup snap_plain toy_client toy_fake_options (toy_world []))
     = fst (replay_setup snap_plain_recorded toy_client toy_fake_options
                         (toy_world [])).
Proof.
  destruct (@fake_arguments_ignore_recorded toy_types toy_lib toy_backend
              snap_plain snap_plain_recorded toy_client toy_fake_options
              (toy_computation snap_plain) (toy_world []) eq_refl)
    as [Hsame [_ Hsetup]].
  split; [exact Hsame|].
  apply Hsetup. intros b. reflexivity.
Defined.

(** The text of a result line, as the header of the tool gives it:
    file_path: computation_name :: type:literal_str *)
Example result_line_text :
  format_line (ResultLine "recorded.pb" "recorded" "f32[]" "run1")
  = ("recorded.pb: recorded :: f32[]:run1" ++ newline)%string.
Proof. reflexivity. Qed.

(** C8 on the report of the recorded snapshot: both lines. *)
Lemma report_of_a_result_witness :
  exists w',
    trace w'
    = trace (snd (ReplayComputation
                    snap_recorded toy_client (toy_options 1 true)
                    (snd (call (ReadBinaryProto "recorded.pb")
                               (toy_world [])))))
      ++ [EvPrint stdout (ResultLine "recorded.pb" "recorded" "f32[]" "run1");
          EvPrint stdout (WasLine "f32[]" "42")]
    /\ replay_file toy_client (toy_options 1 true) "recorded.pb" EXIT_SUCCESS
                   (toy_world [])
       = (Returned EXIT_SUCCESS, w').
Proof.
  apply (@report_of_a_result toy_types toy_lib toy_backend toy_client (toy_options 1 true) "recorded.pb"
           EXIT_SUCCESS snap_recorded "run1" (toy_world [])
           (snd (call (ReadBinaryProto "recorded.pb") (toy_world [])))
           (snd (ReplayComputation
                   snap_recorded toy_client (toy_options 1 true)
                   (snd (call (ReadBinaryProto "recorded.pb")
                              (toy_world [])))))).
  - reflexivity.
  - reflexivity.
Defined.

(** C8 as stated fails.  A recorded result that does not deserialize:
    the computed line is printed, no "was" line follows, and the process
    is aborted. *)
Lemma corrupt_recorded_result_aborts :
  SnapshotResult snap_corrupt_result = Some "corrupt"
  /\ fst (ReplayComputation snap_corrupt_result toy_client (toy_options 1 true)
                            (toy_world []))
     = Returned (Ok (Some "run1"))
  /\ fst (RealMain ["corrupt_result.pb"] (toy_options 1 true) (toy_world []))
     = Aborted
  /\ printed
       (trace (snd (RealMain ["corrupt_result.pb"] (toy_options 1 true)
                             (toy_world []))))
     = [(stdout, ResultLine "corrupt_result.pb" "plain" "f32[]" "run1")].
Proof. vm_compute. repeat split. Qed.

(** C9 on a shape that does not parse, and a batch of two files. *)
Lemma malformed_infeed_shape_aborts_witness :
  ReplayComputation snap_plain toy_client (toy_shape_options "bogus")
                    (snd (call (ReadBinaryProto "plain.pb") (toy_world [])))
  = (Aborted,
     snd (call (LoadSnapshot toy_client snap_plain)
               (snd (call (ReadBinaryProto "plain.pb") (toy_world [])))))
  /\ replay_files toy_client (toy_shape_options "bogus") ["plain.pb"; "recorded.pb"]
                  EXIT_SUCCESS (toy_world [])
     = (Aborted,
        snd (call (LoadSnapshot toy_client snap_plain)
                  (snd (call (ReadBinaryProto "plain.pb") (toy_world [])))))
  /\ exists evs,
      trace (snd (call (LoadSnapshot toy_client snap_plain)
                       (snd (call (ReadBinaryProto "plain.pb")
                                  (toy_world [])))))
      = trace (toy_world []) ++ evs
      /\ files_read evs = ["plain.pb"]
      /\ printed evs = [].
Proof.
  apply (@malformed_infeed_shape_aborts toy_types toy_lib toy_backend toy_client (toy_shape_options "bogus")
           "plain.pb" ["recorded.pb"] EXIT_SUCCESS snap_plain
           (toy_computation snap_plain) [] "cannot parse shape"
           (toy_world [])
           (snd (call (ReadBinaryProto "plain.pb") (toy_world [])))
           (snd (call (LoadSnapshot toy_client snap_plain)
                      (snd (call (ReadBinaryProto "plain.pb")
                                 (toy_world [])))))
           (snd (call (LoadSnapshot toy_client snap_plain)
                      (snd (call (ReadBinaryProto "plain.pb")
                                 (toy_world [])))))).
  - discriminate.
  - reflexivity.
  - reflexivity.
  - reflexivity.
  - reflexivity.
Defined.

(** C10 on no run at all. *)
Lemma no_runs_no_result_witness :
  exists evs w',
    ReplayComputation snap_plain toy_client (toy_options 0 true)
                      (snd (call (ReadBinaryProto "plain.pb") (toy_world [])))
    = (Returned (Ok None), w')
    /\ trace w'
       = trace (snd (call (ReadBinaryProto "plain.pb") (toy_world []))) ++ evs
    /\ filter is_execute evs = []
    /\ printed evs = []
    /\ replay_file toy_client (toy_options 0 true) "plain.pb" EXIT_SUCCESS
                   (toy_world [])
       = (Returned EXIT_SUCCESS, w').
Proof.
  apply (@no_runs_no_result toy_types toy_lib toy_backend toy_client (toy_options 0 true) "plain.pb"
           EXIT_SUCCESS snap_plain
           {| computation := toy_computation snap_plain;
              execute_arguments := [];
              provide_infeed := false;
              infeed_shape := "" |}
           (toy_world [])
           (snd (call (ReadBinaryProto "plain.pb") (toy_world [])))
           (snd (replay_setup snap_plain toy_client (toy_options 0 true)
                   (snd (call (ReadBinaryProto "plain.pb") (toy_world [])))))).
  - simpl. lia.
  - exact toy_infeed_succeeds.
  - reflexivity.
  - reflexivity.
  - reflexivity.
Defined.

End ToyRuns.

(** * More properties of the tool *)

(** ** The loop of the runs, whatever the client answers *)
Section RunsReturned.
Context {xla_types : XlaTypes} {xla_lib : XlaLib} {xla_backend : Backend}.
Local Open Scope replay_scope.

(** When the loop returns, the main thread has made the runs it describes
    and nothing else: all of them, answered OK, when it returns a value;
    some of them answered OK and then one answered with the status it
    returns, when it returns a status. *)
Lemma execute_runs_returned (client : Client) (opts : Options)
    (computation : XlaComputation) (arguments : list GlobalData)
    (remaining : nat) :
  forall i result w r w',
    execute_runs client opts computation arguments remaining i result w
    = (Returned r, w') ->
    exists runs evs,
      trace w' = trace w ++ evs
      /\ Forall (fun x => run_retrieves x = print_result opts) runs
      /\ match r with
         | Ok final =>
             main_events evs
             = run_events client opts computation arguments i runs
             /\ List.length runs = remaining
             /\ final = last_run_value result runs
         | Err st =>
             main_events evs
             = run_events client opts computation arguments i runs
               ++ [failed_run_event client opts computation arguments
                                    (i + Z.of_nat (List.length runs)) st]
             /\ (List.length runs < remaining)%nat
         end.
Proof.
  induction remaining as [|remaining IH]; intros i result w r w' Hrun;
    simpl in Hrun.
  - inversion Hrun; subst. exists [], []. rewrite app_nil_r.
    repeat split; auto.
  - remember (print_result opts) as printing eqn:Hp.
    destruct printing.
    + apply bind_inv in Hrun.
      destruct Hrun as [[reply [w1 [Hcall Hrest]]]|[_ Habs]]; [|discriminate].
      destruct (@call_returned_trace
                  _ _ (ExecuteAndTransfer client computation arguments
                                          (run_options opts i))
                  _ _ _ Hcall) as [pevs [Hall T]].
      destruct reply as [[literal profile]|st].
      * destruct (IH _ _ _ _ _ Hrest) as [runs [evs [T' [Hr Hshape]]]].
        exists (Retrieved literal profile :: runs). eexists.
        split; [rewrite T', T, <- !app_assoc; reflexivity|].
        split; [constructor; [reflexivity | exact Hr]|].
        rewrite !main_events_app, (all_pool_main_events Hall).
        destruct r as [final|st]; simpl.
        -- destruct Hshape as [Hm [Hl Hf]]. rewrite Hm, Hl. auto.
        -- destruct Hshape as [Hm Hl]. rewrite Hm.
           rewrite Zpos_P_of_succ_nat.
           replace (i + Z.succ (Z.of_nat (List.length runs)))
             with (i + 1 + Z.of_nat (List.length runs)) by lia.
           split; [reflexivity | lia].
      * inversion Hrest; subst r w'. exists []. eexists.
        split; [exact T|]. split; [constructor|].
        rewrite !main_events_app, (all_pool_main_events Hall). simpl.
        unfold failed_run_event. rewrite <- Hp, Z.add_0_r.
        split; [reflexivity | lia].
    + apply bind_inv in Hrun.
      destruct Hrun as [[reply [w1 [Hcall Hrest]]]|[_ Habs]]; [|discriminate].
      destruct (@call_returned_trace
                  _ _ (Execute client computation arguments
                               (run_options opts i))
                  _ _ _ Hcall) as [pevs [Hall T]].
      destruct reply as [[data profile]|st].
      * destruct (IH _ _ _ _ _ Hrest) as [runs [evs [T' [Hr Hshape]]]].
        exists (NotRetrieved data profile :: runs). eexists.
        split; [rewrite T', T, <- !app_assoc; reflexivity|].
        split; [constructor; [reflexivity | exact Hr]|].
        rewrite !main_events_app, (all_pool_main_events Hall).
        destruct r as [final|st]; simpl.
        -- destruct Hshape as [Hm [Hl Hf]]. rewrite Hm, Hl. auto.
        -- destruct Hshape as [Hm Hl]. rewrite Hm.
           rewrite Zpos_P_of_succ_nat.
           replace (i + Z.succ (Z.of_nat (List.length runs)))
             with (i + 1 + Z.of_nat (List.length runs)) by lia.
           split; [reflexivity | lia].
      * inversion Hrest; subst r w'. exists []. eexists.
        split; [exact T|]. split; [constructor|].
        rewrite !main_events_app, (all_pool_main_events Hall). simpl.
        unfold failed_run_event. rewrite <- Hp, Z.add_0_r.
        split; [reflexivity | lia].
Qed.

End RunsReturned.

(** ** A replay that returns, whatever the client answers *)
Section ReplayReturned.
Context {xla_types : XlaTypes} {xla_lib : XlaLib} {xla_backend : Backend}.
Local Open Scope replay_scope.

Lemma is_execute_failed_run_event (client : Client) (opts : Options)
    (computation : XlaComputation) (arguments : list GlobalData) (i : Z)
    (st : Status) :
  is_execute (failed_run_event client opts computation arguments i st) = true.
Proof. unfold failed_run_event. destruct (print_result opts); reflexivity. Qed.

(** Lines 124-181 when they return: the closure, if any, was scheduled
    first, then came the runs, and the pool was waited for. *)
Lemma replay_run_returned (client : Client) (opts : Options) (s : ReplaySetup)
    (w w' : World) (r : StatusOr (option Literal)) :
  replay_run client opts s w = (Returned r, w') ->
  exists runs evs,
    trace w' = trace w ++ evs
    /\ pool w' = []
    /\ Forall (fun x => run_retrieves x = print_result opts) runs
    /\ main_events evs
       = (if provide_infeed s
          then [EvSchedule (infeed_closure opts (infeed_shape s) client)]
          else [])
         ++ run_events client opts (computation s) (execute_arguments s) 0 runs
         ++ match r with
            | Ok _ => []
            | Err st =>
                [failed_run_event client opts (computation s)
                                  (execute_arguments s)
                                  (Z.of_nat (List.length runs)) st]
            end
    /\ match r with
       | Ok final =>
           List.length runs = Z.to_nat (num_runs opts)
           /\ final = last_run_value None runs
       | Err _ => (List.length runs < Z.to_nat (num_runs opts))%nat
       end.
Proof.
  unfold replay_run. intros Hrun.
  set (closure := infeed_closure opts (infeed_shape s) client) in *.
  apply bind_inv in Hrun.
  destruct Hrun as [[u [w0 [Hstart Hrun]]]|[_ Habs]]; [|discriminate].
  assert (T0 : trace w0
               = trace w ++ (if provide_infeed s then [EvSchedule closure]
                             else [])).
  { destruct (provide_infeed s); inversion Hstart; subst; simpl;
      [reflexivity | rewrite app_nil_r; reflexivity]. }
  apply bind_inv in Hrun.
  destruct Hrun as [[result [w1 [Hruns Hrun]]]|[_ Habs]]; [|discriminate].
  destruct (execute_runs_returned _ _ _ _ _ _ _ _ Hruns)
    as [runs [evs1 [T1 [Hr Hshape]]]].
  apply bind_inv in Hrun.
  destruct Hrun as [[u' [w2 [Hjoin Hrun]]]|[_ Habs]]; [|discriminate].
  inversion Hrun; subst r w2. clear Hrun.
  unfold destroy_pool in Hjoin.
  destruct (pool_drain (pool w1) (backend w1)) as [[alive b2] evs2] eqn:Hd.
  pose proof (pool_drain_all_pool _ _ Hd) as Hall2.
  destruct alive; [|discriminate]. inversion Hjoin; subst w'. clear Hjoin.
  exists runs. eexists. simpl.
  split; [rewrite T1, T0, <- !app_assoc; reflexivity|].
  split; [reflexivity|]. split; [exact Hr|].
  rewrite !main_events_app, (all_pool_main_events Hall2), app_nil_r.
  assert (Hs : main_events (if provide_infeed s then [EvSchedule closure]
                            else [])
               = (if provide_infeed s then [EvSchedule closure] else [])).
  { destruct (provide_infeed s); reflexivity. }
  rewrite Hs. destruct result as [final|st].
  - destruct Hshape as [Hm [Hl Hf]]. rewrite Hm, app_nil_r. auto.
  - destruct Hshape as [Hm Hl]. rewrite Hm. simpl. auto.
Qed.

Lemma filter_execute_schedule (s : ReplaySetup) (closure : Thread)
    (evs : list Event) :
  filter is_execute
         ((if provide_infeed s then [EvSchedule closure] else []) ++ evs)
  = filter is_execute evs.
Proof. destruct (provide_infeed s); reflexivity. Qed.

(** X1.  The first execute call that the client answers with an error
    ends the replay: the runs before it were answered OK, no run is made
    after it, its status is what ReplayComputation returns, and the
    function still returns only once the pool is done. *)
Theorem first_execution_error_is_returned :
  forall (module : HloSnapshot) (client : Client) (opts : Options)
         (w w1 w' : World) (s : ReplaySetup) (st : Status),
    replay_setup module client opts w = (Returned (Ok s), w1) ->
    ReplayComputation module client opts w = (Returned (Err st), w') ->
    exists runs evs,
      trace w' = trace w1 ++ evs
      /\ filter is_execute evs
         = run_events client opts (computation s) (execute_arguments s) 0 runs
           ++ [failed_run_event client opts (computation s)
                                (execute_arguments s)
                                (Z.of_nat (List.length runs)) st]
      /\ Z.of_nat (List.length runs) < num_runs opts
      /\ pool w' = [].
Proof.
  intros module client opts w w1 w' s st Hsetup Hreplay.
  unfold ReplayComputation in Hreplay.
  erewrite bind_returned in Hreplay by exact Hsetup.
  destruct (replay_run_returned _ _ _ _ Hreplay)
    as [runs [evs [T [Hq [Hr [Hm Hl]]]]]].
  exists runs, evs. split; [exact T|]. split; [|split; [lia | exact Hq]].
  rewrite <- (filter_main_events is_execute evs is_execute_not_pool).
  rewrite Hm, filter_execute_schedule, filter_app, run_events_execute.
  simpl. rewrite is_execute_failed_run_event. reflexivity.
Qed.

(** X2.  ReplayComputation returns OK only when every one of its
    [num_runs] execute calls was answered OK: the execute calls of the
    main thread are then exactly these runs, in order, and the value
    returned is the one the last retrieving run left. *)
Theorem success_means_every_run_succeeded :
  forall (module : HloSnapshot) (client : Client) (opts : Options)
         (w w1 w' : World) (s : ReplaySetup) (final : option Literal),
    replay_setup module client opts w = (Returned (Ok s), w1) ->
    ReplayComputation module client opts w = (Returned (Ok final), w') ->
    exists runs evs,
      trace w' = trace w1 ++ evs
      /\ filter is_execute evs
         = run_events client opts (computation s) (execute_arguments s) 0 runs
      /\ List.length runs = Z.to_nat (num_runs opts)
      /\ Forall (fun x => run_retrieves x = print_result opts) runs
      /\ final = last_run_value None runs.
Proof.
  intros module client opts w w1 w' s final Hsetup Hreplay.
  unfold ReplayComputation in Hreplay.
  erewrite bind_returned in Hreplay by exact Hsetup.
  destruct (replay_run_returned _ _ _ _ Hreplay)
    as [runs [evs [T [Hq [Hr [Hm [Hl Hf]]]]]]].
  exists runs, evs. split; [exact T|].
  split; [|split; [exact Hl | split; [exact Hr | exact Hf]]].
  rewrite <- (filter_main_events is_execute evs is_execute_not_pool).
  rewrite Hm, filter_execute_schedule, app_nil_r. apply run_events_execute.
Qed.

(** *** The options of the runs *)
Lemma options_used_app (xs ys : list Event) :
  options_used (xs ++ ys) = options_used xs ++ options_used ys.
Proof. apply flat_map_app. Qed.

Lemma options_used_main_events (evs : list Event) :
  options_used (main_events evs) = options_used evs.
Proof.
  unfold main_events. induction evs as [|e evs IH]; simpl; [reflexivity|].
  destruct e as [[|] c r| |]; simpl; rewrite IH; reflexivity.
Qed.

Lemma options_used_run_events (client : Client) (opts : Options)
    (computation : XlaComputation) (arguments : list GlobalData)
    (runs : list RunResult) :
  forall i,
    runs <> [] ->
    i + Z.of_nat (List.length runs) = num_runs opts ->
    options_used (run_events client opts computation arguments i runs)
    = repeat CreateDefaultExecutionOptions (List.length runs - 1)
      ++ [if xla_hlo_profile_last_run opts
          then set_xla_hlo_profile true CreateDefaultExecutionOptions
          else CreateDefaultExecutionOptions].
Proof.
  induction runs as [|r runs IH]; intros i Hne Hi; [contradiction|].
  destruct runs as [|r' runs].
  - assert (Hlast : (i =? num_runs opts - 1) = true).
    { apply Z.eqb_eq. simpl in Hi. lia. }
    destruct r; simpl; unfold run_options; rewrite Hlast, andb_true_r;
      reflexivity.
  - assert (Hnot : (i =? num_runs opts - 1) = false).
    { apply Z.eqb_neq. simpl List.length in Hi. lia. }
    assert (Hrest : options_used
                      (run_events client opts computation arguments (i + 1)
                                  (r' :: runs))
                    = repeat CreateDefaultExecutionOptions
                             (List.length (r' :: runs) - 1)
                      ++ [if xla_hlo_profile_last_run opts
                          then set_xla_hlo_profile true
                                                   CreateDefaultExecutionOptions
                          else CreateDefaultExecutionOptions]).
    { apply IH; [discriminate|]. simpl List.length in *. lia. }
    change (run_events client opts computation arguments i (r :: r' :: runs))
      with ([run_event client opts computation arguments i r]
            ++ run_events client opts computation arguments (i + 1)
                          (r' :: runs)).
    rewrite options_used_app.
    rewrite Hrest.
    assert (Hhead : options_used
                      [run_event client opts computation arguments i r]
                    = [CreateDefaultExecutionOptions]).
    { destruct r; simpl; unfold run_options; rewrite Hnot, andb_false_r;
        reflexivity. }
    rewrite Hhead. simpl. rewrite Nat.sub_0_r. reflexivity.
Qed.

(** X3.  In a replay that returns OK after at least one run, every
    execute call but the last is made with the default execution options,
    and the last one with profiling switched on exactly when
    [xla_hlo_profile_last_run] is set. *)
Theorem profile_only_on_the_last_run :
  forall (module : HloSnapshot) (client : Client) (opts : Options)
         (w w1 w' : World) (s : ReplaySetup) (final : option Literal),
    1 <= num_runs opts ->
    replay_setup module client opts w = (Returned (Ok s), w1) ->
    ReplayComputation module client opts w = (Returned (Ok final), w') ->
    exists evs,
      trace w' = trace w1 ++ evs
      /\ options_used evs
         = repeat CreateDefaultExecutionOptions
                  (Z.to_nat (num_runs opts) - 1)
           ++ [if xla_hlo_profile_last_run opts
               then set_xla_hlo_profile true CreateDefaultExecutionOptions
               else CreateDefaultExecutionOptions].
Proof.
  intros module client opts w w1 w' s final Hn Hsetup Hreplay.
  unfold ReplayComputation in Hreplay.
  erewrite bind_returned in Hreplay by exact Hsetup.
  destruct (replay_run_returned _ _ _ _ Hreplay)
    as [runs [evs [T [Hq [Hr [Hm [Hl Hf]]]]]]].
  exists evs. split; [exact T|].
  rewrite <- options_used_main_events, Hm, app_nil_r, options_used_app.
  assert (Hs : options_used
                 (if provide_infeed s
                  then [EvSchedule (infeed_closure opts (infeed_shape s)
                                                   client)]
                  else []) = []).
  { destruct (provide_infeed s); reflexivity. }
  rewrite Hs. simpl. rewrite <- Hl.
  apply options_used_run_events.
  - intros ->. simpl in Hl. lia.
  - rewrite Hl. lia.
Qed.

End ReplayReturned.

(** ** A feed that fails *)
Section FailingFeed.
Context {xla_types : XlaTypes} {xla_lib : XlaLib} {xla_backend : Backend}.
Local Open Scope replay_scope.

(** However far the pool thread gets with a doomed closure, it has failed
    its check or a doomed closure is left. *)
Lemma pool_run_doomed (n : nat) :
  forall b t,
    Doomed t ->
    exists alive b' q' evs,
      pool_run n b [t] = (alive, b', q', evs)
      /\ (alive = true -> exists t', q' = [t'] /\ Doomed t').
Proof.
  induction n as [|n IH]; intros b t Ht.
  - exists true, b, [t], []. split; [reflexivity|].
    intros _. exists t. auto.
  - destruct Ht as [|c k Hk]; simpl.
    + exists false, b, [TFatal], []. split; [reflexivity | discriminate].
    + specialize (Hk b). destruct (handle c b) as [r b1]. simpl in Hk.
      destruct (IH b1 (k r) Hk) as [alive [b' [q' [evs [E Hq]]]]].
      rewrite E. exists alive, b', q'. eexists. split; [reflexivity | exact Hq].
Qed.

Lemma thread_run_doomed (t : Thread) :
  Doomed t ->
  forall b, exists b' evs, thread_run t b = (false, b', evs).
Proof.
  intros Ht. induction Ht as [|c k _ IH]; intros b; simpl.
  - exists b, []. reflexivity.
  - specialize (IH b). destruct (handle c b) as [r b1]. simpl in IH.
    destruct (IH b1) as [b' [evs E]]. rewrite E. eauto.
Qed.

Lemma call_doomed (c : Call) : keeps_doom (call c).
Proof.
  intros w t Hq Ht. unfold call. rewrite Hq.
  destruct (pool_run_doomed (hd 0%nat (schedule w)) (backend w) Ht)
    as [alive [b' [q' [evs [E Hq']]]]].
  rewrite E. destruct alive.
  - right. destruct (Hq' eq_refl) as [t' [-> Ht']].
    destruct (handle c b') as [r b2]. exists r. eexists. exists t'.
    split; [reflexivity|]. split; [reflexivity | exact Ht'].
  - left. eauto.
Qed.

Lemma execute_runs_doomed (client : Client) (opts : Options)
    (computation : XlaComputation) (arguments : list GlobalData)
    (remaining : nat) :
  forall i result,
    keeps_doom (execute_runs client opts computation arguments remaining
                             i result).
Proof.
  induction remaining as [|remaining IH]; intros i result w t Hq Ht; simpl.
  - right. exists (Ok result), w, t. auto.
  - destruct (print_result opts).
    + unfold bind.
      destruct (call_doomed
                  (ExecuteAndTransfer client computation arguments
                                      (run_options opts i)) w Hq Ht)
        as [[w1 E]|[reply [w1 [t1 [E [Hq1 Ht1]]]]]]; rewrite E.
      * left. eauto.
      * destruct reply as [v|st]; [apply (IH _ _ _ _ Hq1 Ht1)|].
        right. exists (Err st), w1, t1. auto.
    + unfold bind.
      destruct (call_doomed
                  (Execute client computation arguments (run_options opts i))
                  w Hq Ht)
        as [[w1 E]|[reply [w1 [t1 [E [Hq1 Ht1]]]]]]; rewrite E.
      * left. eauto.
      * destruct reply as [v|st]; [apply (IH _ _ _ _ Hq1 Ht1)|].
        right. exists (Err st), w1, t1. auto.
Qed.

Lemma destroy_pool_doomed (w : World) (t : Thread) :
  pool w = [t] -> Doomed t -> exists w', destroy_pool w = (Aborted, w').
Proof.
  intros Hq Ht. unfold destroy_pool. rewrite Hq. simpl.
  destruct (thread_run_doomed Ht (backend w)) as [b' [evs E]].
  rewrite E. eauto.
Qed.

(** A replay whose closure is doomed never returns: the process is
    aborted, at the latest when the pool is waited for. *)
Lemma ReplayComputation_doomed (module : HloSnapshot) (client : Client)
    (opts : Options) (w w1 : World) (s : ReplaySetup) :
  provide_infeed s = true ->
  Doomed (infeed_closure opts (infeed_shape s) client) ->
  pool w = [] ->
  replay_setup module client opts w = (Returned (Ok s), w1) ->
  exists w', ReplayComputation module client opts w = (Aborted, w').
Proof.
  intros Hp Hdoom Hq Hsetup.
  assert (Hq1 : pool w1 = []).
  { pose proof (replay_setup_pool_nil module client opts w Hq) as P.
    rewrite Hsetup in P. exact P. }
  unfold ReplayComputation. erewrite bind_returned by exact Hsetup.
  unfold replay_run. rewrite Hp. unfold bind at 1. simpl.
  set (w0 := {| backend := backend w1;
                pool := pool w1
                        ++ [infeed_closure opts (infeed_shape s) client];
                schedule := schedule w1;
                trace := trace w1
                         ++ [EvSchedule (infeed_closure opts (infeed_shape s)
                                                        client)] |}).
  assert (Hq0 : pool w0 = [infeed_closure opts (infeed_shape s) client]).
  { unfold w0. simpl. rewrite Hq1. reflexivity. }
  unfold bind at 1.
  destruct (execute_runs_doomed client opts (computation s)
              (execute_arguments s) (Z.to_nat (num_runs opts)) 0 None
              w0 Hq0 Hdoom)
    as [[w2 E]|[r [w2 [t2 [E [Hq2 Ht2]]]]]]; rewrite E.
  - eauto.
  - unfold bind.
    assert (E3 : exists w3, destroy_pool w2 = (Aborted, w3))
      by (eapply destroy_pool_doomed; eassumption).
    destruct E3 as [w3 E3].
    rewrite E3. eauto.
Qed.

(** X4.  When no fake literal can be made for the infeed shape, a replay
    that feeds the infeed aborts the process under every schedule, also
    when every execute call succeeds; the files that follow are not
    replayed. *)
Theorem failed_fake_literal_aborts :
  forall (module : HloSnapshot) (client : Client) (opts : Options)
         (w w1 : World) (s : ReplaySetup),
    provide_infeed s = true ->
    (forall b, exists st,
        fst (handle (MakeFakeLiteral (infeed_shape s)) b) = Err st) ->
    pool w = [] ->
    replay_setup module client opts w = (Returned (Ok s), w1) ->
    fst (ReplayComputation module client opts w) = Aborted
    /\ forall arg rest exit_status w0,
        call (ReadBinaryProto arg) w0 = (Returned (Ok module), w) ->
        fst (replay_files client opts (arg :: rest) exit_status w0) = Aborted.
Proof.
  intros module client opts w w1 s Hp Hmake Hq Hsetup.
  assert (Hdoom : Doomed (infeed_closure opts (infeed_shape s) client)).
  { unfold infeed_closure. constructor. intros b.
    destruct (Hmake b) as [st Hst]. rewrite Hst. constructor. }
  assert (E : exists w', ReplayComputation module client opts w
                         = (Aborted, w'))
    by (eapply ReplayComputation_doomed; eassumption).
  destruct E as [w' E].
  split; [rewrite E; reflexivity|].
  intros arg rest exit_status w0 Hread.
  erewrite replay_files_aborted by eassumption. reflexivity.
Qed.

(** X5.  When the infeed refuses every transfer and [num_infeeds] is at
    least one, a replay that feeds the infeed aborts the process under
    every schedule, also when every execute call succeeds; the files that
    follow are not replayed. *)
Theorem failed_infeed_transfer_aborts :
  forall (module : HloSnapshot) (client : Client) (opts : Options)
         (w w1 : World) (s : ReplaySetup),
    provide_infeed s = true ->
    1 <= num_infeeds opts ->
    (forall data b, exists st,
        fst (handle (TransferToInfeed client data) b) = Err st) ->
    pool w = [] ->
    replay_setup module client opts w = (Returned (Ok s), w1) ->
    fst (ReplayComputation module client opts w) = Aborted
    /\ forall arg rest exit_status w0,
        call (ReadBinaryProto arg) w0 = (Returned (Ok module), w) ->
        fst (replay_files client opts (arg :: rest) exit_status w0) = Aborted.
Proof.
  intros module client opts w w1 s Hp Hn Hpush Hq Hsetup.
  assert (Hdoom : Doomed (infeed_closure opts (infeed_shape s) client)).
  { unfold infeed_closure. constructor. intros b.
    destruct (fst (handle (MakeFakeLiteral (infeed_shape s)) b))
      as [data|st]; [|constructor].
    destruct (Z.to_nat (num_infeeds opts)) as [|k] eqn:Hk; [lia|].
    simpl. constructor. intros b'.
    destruct (Hpush data b') as [st Hst]. rewrite Hst. constructor. }
  assert (E : exists w', ReplayComputation module client opts w
                         = (Aborted, w'))
    by (eapply ReplayComputation_doomed; eassumption).
  destruct E as [w' E].
  split; [rewrite E; reflexivity|].
  intros arg rest exit_status w0 Hread.
  erewrite replay_files_aborted by eassumption. reflexivity.
Qed.

End FailingFeed.

(** ** The pool from one file to the next *)
Section PoolOfTheBatch.
Context {xla_types : XlaTypes} {xla_lib : XlaLib} {xla_backend : Backend}.
Local Open Scope replay_scope.

(** What lines 124-181 schedule, whatever their outcome. *)
Lemma replay_run_schedules (client : Client) (opts : Options)
    (s : ReplaySetup) (w : World) :
  exists evs,
    trace (snd (replay_run client opts s w)) = trace w ++ evs
    /\ filter is_schedule evs
       = (if provide_infeed s
          then [EvSchedule (infeed_closure opts (infeed_shape s) client)]
          else []).
Proof.
  unfold replay_run.
  set (tail := bind (execute_runs client opts (computation s)
                                  (execute_arguments s)
                                  (Z.to_nat (num_runs opts)) 0 None)
                    (fun result => bind destroy_pool (fun _ => ret result))).
  assert (Htail : emits (loop_event (print_result opts)) tail).
  { unfold tail. apply emits_bind; [apply emits_execute_runs|].
    intros result. apply emits_bind.
    - apply emits_destroy_pool. apply loop_event_pool_closed.
    - intros _. apply emits_ret. }
  destruct (provide_infeed s).
  - unfold bind at 1. simpl.
    match goal with
    | |- context [tail ?w0] => destruct (Htail w0) as [evs [T F]]
    end.
    eexists. split; [rewrite T; simpl; rewrite <- app_assoc; reflexivity|].
    simpl. rewrite (loop_events_no_schedule _ F). reflexivity.
  - unfold bind at 1. simpl. destruct (Htail w) as [evs [T F]].
    exists evs. split; [exact T|]. apply (loop_events_no_schedule _ F).
Qed.

(** A replay schedules at most one closure, whatever its outcome. *)
Lemma ReplayComputation_schedules (module : HloSnapshot) (client : Client)
    (opts : Options) (w : World) :
  exists evs,
    trace (snd (ReplayComputation module client opts w)) = trace w ++ evs
    /\ (List.length (filter is_schedule evs) <= 1)%nat.
Proof.
  unfold ReplayComputation, bind.
  destruct (emits_replay_setup module client opts w) as [evs0 [T0 F0]].
  pose proof (setup_events_no_schedule F0) as S0.
  destruct (replay_setup module client opts w) as [[[s|st]|] w1];
    simpl in T0.
  - destruct (replay_run_schedules client opts s w1) as [evs [T Hs]].
    exists (evs0 ++ evs). split; [rewrite T, T0, app_assoc; reflexivity|].
    rewrite filter_app, S0, Hs. destruct (provide_infeed s); simpl; lia.
  - exists evs0. split; [exact T0|]. rewrite S0. simpl. lia.
  - exists evs0. split; [exact T0|]. rewrite S0. simpl. lia.
Qed.

(** A replay that returns leaves no closure behind. *)
Lemma ReplayComputation_pool_nil (module : HloSnapshot) (client : Client)
    (opts : Options) (w w' : World) (r : StatusOr (option Literal)) :
  pool w = [] ->
  ReplayComputation module client opts w = (Returned r, w') ->
  pool w' = [].
Proof.
  intros Hq Hreplay. unfold ReplayComputation in Hreplay.
  apply bind_inv in Hreplay.
  destruct Hreplay as [[setup [w1 [Hsetup Hrest]]]|[_ Habs]]; [|discriminate].
  pose proof (replay_setup_pool_nil module client opts w Hq) as Hq1.
  rewrite Hsetup in Hq1. simpl in Hq1.
  destruct setup as [s|st].
  - destruct (replay_run_returned _ _ _ _ Hrest) as [_ [_ [_ [Hq' _]]]].
    exact Hq'.
  - inversion Hrest; subst. exact Hq1.
Qed.

Lemma report_pool (arg : string) (snapshot : HloSnapshot) (result : Literal)
    (w : World) :
  pool (snd (report arg snapshot result w)) = pool w.
Proof.
  unfold report, bind, print, ret, die. simpl.
  destruct (SnapshotResult snapshot) as [recorded|]; [|reflexivity].
  destruct (CreateFromProto recorded); reflexivity.
Qed.

Lemma report_events_no_schedule (evs : list Event) :
  Forall (fun e => report_event e = true) evs -> filter is_schedule evs = [].
Proof.
  intros Hall. induction Hall as [|e evs He _ IH]; simpl; [reflexivity|].
  destruct e as [[|] c r| |]; simpl in *; try exact IH; discriminate.
Qed.

(** One file: no closure is left in the pool after it, and at most one
    was scheduled for it. *)
Lemma replay_file_pool (client : Client) (opts : Options) (arg : string)
    (exit_status code : Z) (w w' : World) :
  pool w = [] ->
  replay_file client opts arg exit_status w = (Returned code, w') ->
  pool w' = []
  /\ exists evs,
      trace w' = trace w ++ evs
      /\ (List.length (filter is_schedule evs) <= 1)%nat.
Proof.
  intros Hq Hfile. unfold replay_file in Hfile.
  unfold bind at 1 in Hfile. rewrite (call_quiet _ w Hq) in Hfile.
  set (w1 := {| backend := snd (handle (ReadBinaryProto arg) (backend w));
                pool := [];
                schedule := tl (schedule w);
                trace := trace w
                         ++ [EvCall MainThread (ReadBinaryProto arg)
                                    (fst (handle (ReadBinaryProto arg)
                                                 (backend w)))] |}) in *.
  destruct (fst (handle (ReadBinaryProto arg) (backend w)))
    as [snapshot|st] eqn:Hread.
  - apply bind_inv in Hfile.
    destruct Hfile as [[result_status [w2 [Hreplay Hrest]]]|[_ Habs]];
      [|discriminate].
    pose proof (@ReplayComputation_pool_nil snapshot client opts w1 w2
                  result_status eq_refl Hreplay) as Hq2.
    destruct (ReplayComputation_schedules snapshot client opts w1)
      as [evs1 [T1 L1]].
    rewrite Hreplay in T1. simpl in T1.
    destruct result_status as [[result|]|st].
    + apply bind_inv in Hrest.
      destruct Hrest as [[u [w3 [Hreport Hrest]]]|[_ Habs]]; [|discriminate].
      inversion Hrest; subst code w3. clear Hrest.
      pose proof (report_pool arg snapshot result w2) as Hq3.
      destruct (emits_report arg snapshot result w2) as [evs2 [T2 F2]].
      rewrite Hreport in Hq3, T2. simpl in Hq3, T2.
      split; [rewrite Hq3; exact Hq2|].
      eexists. split; [rewrite T2, T1; simpl; rewrite <- !app_assoc;
                       reflexivity|].
      simpl. rewrite filter_app, (report_events_no_schedule F2), app_nil_r.
      exact L1.
    + inversion Hrest; subst code w2. clear Hrest.
      split; [exact Hq2|].
      eexists. split; [rewrite T1; simpl; rewrite <- !app_assoc;
                       reflexivity|].
      simpl. exact L1.
    + unfold bind, print, ret in Hrest. inversion Hrest; subst code w'.
      clear Hrest. simpl. split; [exact Hq2|].
      eexists. split; [rewrite T1; simpl; rewrite <- !app_assoc;
                       reflexivity|].
      simpl. rewrite filter_app. simpl. rewrite app_nil_r. exact L1.
  - unfold bind, print, ret in Hfile. inversion Hfile; subst code w'.
    clear Hfile. simpl. split; [reflexivity|].
    eexists. split; [rewrite <- !app_assoc; reflexivity|]. simpl. lia.
Qed.

Lemma replay_files_pool (client : Client) (opts : Options)
    (args : list string) :
  forall (exit_status code : Z) (w w' : World),
    pool w = [] ->
    replay_files client opts args exit_status w = (Returned code, w') ->
    pool w' = []
    /\ exists evs,
        trace w' = trace w ++ evs
        /\ (List.length (filter is_schedule evs) <= List.length args)%nat.
Proof.
  induction args as [|arg rest IH]; intros exit_status code w w' Hq Hfiles;
    simpl in Hfiles.
  - inversion Hfiles; subst. split; [exact Hq|]. exists [].
    rewrite app_nil_r. simpl. auto.
  - apply bind_inv in Hfiles.
    destruct Hfiles as [[code1 [w1 [Hfile Hrest]]]|[_ Habs]]; [|discriminate].
    edestruct replay_file_pool as [Hq1 [evs1 [T1 L1]]];
      [exact Hq | exact Hfile |].
    destruct (IH _ _ _ _ Hq1 Hrest) as [Hq' [evs2 [T2 L2]]].
    split; [exact Hq'|]. exists (evs1 ++ evs2).
    split; [rewrite T2, T1, app_assoc; reflexivity|].
    rewrite filter_app, length_app. simpl. lia.
Qed.

(** X6.  No feed outlives its replay and no replay has two: when RealMain
    returns, started without a pool, no closure is left in the pool, and
    at most one closure per file was scheduled. *)
Theorem feeds_do_not_outlive_their_replay :
  forall (args : list string) (opts : Options) (w w' : World) (code : Z),
    pool w = [] ->
    RealMain args opts w = (Returned code, w') ->
    pool w' = []
    /\ exists evs,
        trace w' = trace w ++ evs
        /\ (List.length (filter is_schedule evs) <= List.length args)%nat.
Proof.
  intros args opts w w' code Hq Hmain. unfold RealMain in Hmain.
  unfold bind at 1 in Hmain. rewrite (call_quiet _ w Hq) in Hmain.
  destruct (fst (handle LocalClientOrDie (backend w))) as [client|];
    [|discriminate].
  apply bind_inv in Hmain.
  destruct Hmain as [[exit_status [w2 [Hfiles Hrest]]]|[_ Habs]];
    [|discriminate].
  edestruct replay_files_pool as [Hq2 [evs2 [T2 L2]]];
    [|exact Hfiles|]; [reflexivity|].
  unfold bind at 1 in Hrest. rewrite (call_quiet _ w2 Hq2) in Hrest.
  inversion Hrest; subst code w'. clear Hrest. simpl.
  split; [reflexivity|].
  eexists. split; [rewrite T2; simpl; rewrite <- !app_assoc; reflexivity|].
  simpl. rewrite filter_app. simpl. rewrite app_nil_r. exact L2.
Qed.

End PoolOfTheBatch.

(** ** The recorded arguments, up to the first that does not deserialize *)
Section RecordedArguments.
Context {xla_types : XlaTypes} {xla_lib : XlaLib} {xla_backend : Backend}.
Local Open Scope replay_scope.

Lemma transfer_recorded_prefix (client : Client) (good : list LiteralProto)
    (literals : list Literal) :
  transfers_succeed ->
  Forall2 (fun p literal => CreateFromProto p = Ok literal) good literals ->
  forall rest arguments w,
    pool w = [] ->
    exists handles w1,
      transfer_recorded client (good ++ rest) arguments w
      = transfer_recorded client rest (arguments ++ handles) w1
      /\ List.length handles = List.length good
      /\ trace w1 = trace w ++ transfer_events client literals handles
      /\ pool w1 = [].
Proof.
  intros Htransfer Hgood.
  induction Hgood as [|p literal good literals Hp _ IH];
    intros rest arguments w Hq.
  - exists [], w. rewrite !app_nil_r. auto.
  - simpl. rewrite Hp. unfold bind at 1. rewrite (call_quiet _ w Hq).
    destruct (Htransfer client literal (backend w)) as [data Hdata].
    rewrite Hdata.
    match goal with
    | |- context [transfer_recorded _ _ _ ?w0] =>
        destruct (IH rest (arguments ++ [data]) w0 eq_refl)
          as [handles [w1 [E [Hl [T Hq1]]]]]
    end.
    exists (data :: handles), w1. rewrite E, <- app_assoc. simpl.
    split; [reflexivity|]. split; [rewrite Hl; reflexivity|].
    split; [|exact Hq1]. rewrite T. simpl. rewrite <- app_assoc. reflexivity.
Qed.

(** X7.  Without fake data, the first recorded argument that does not
    deserialize ends the provisioning with its status: the arguments
    before it have been transferred, one handle each and in order, and
    nothing is done with the arguments after it. *)
Theorem first_malformed_argument_stops_provisioning :
  forall (module : HloSnapshot) (client : Client) (opts : Options)
         (computation : XlaComputation) (w : World)
         (good rest : list LiteralProto) (bad : LiteralProto)
         (literals : list Literal) (st : Status),
    use_fake_data opts = false ->
    transfers_succeed ->
    pool w = [] ->
    arguments module = good ++ bad :: rest ->
    Forall2 (fun p literal => CreateFromProto p = Ok literal) good literals ->
    CreateFromProto bad = Err st ->
    exists handles w',
      provision_arguments module client opts computation w
      = (Returned (Err st), w')
      /\ List.length handles = List.length good
      /\ trace w' = trace w ++ transfer_events client literals handles.
Proof.
  intros module client opts computation w good rest bad literals st
         Hfake Htransfer Hq Hargs Hgood Hbad.
  unfold provision_arguments. rewrite Hfake, Hargs.
  destruct (transfer_recorded_prefix client Htransfer Hgood (bad :: rest)
                                     [] w Hq)
    as [handles [w1 [E [Hl [T _]]]]].
  exists handles, w1. rewrite E. simpl. rewrite Hbad.
  split; [reflexivity|]. split; assumption.
Qed.

End RecordedArguments.

(** ** The client of the batch, and the two ways to the arguments *)
Section ClientOfTheBatch.
Context {xla_types : XlaTypes} {xla_lib : XlaLib} {xla_backend : Backend}.
Local Open Scope replay_scope.

Lemma batch_event_pool_closed : pool_closed batch_event.
Proof. intros c r. reflexivity. Qed.

Lemma replay_event_batch_event (retrieving : bool) (e : Event) :
  replay_event retrieving e = true -> batch_event e = true.
Proof.
  destruct e as [[|] [] r| |]; simpl; intros E;
    try reflexivity; discriminate.
Qed.

Lemma report_event_batch_event (e : Event) :
  report_event e = true -> batch_event e = true.
Proof.
  destruct e as [[|] c r| |]; simpl; intros E;
    try reflexivity; discriminate.
Qed.

Lemma emits_replay_file (client : Client) (opts : Options) (arg : string)
    (exit_status : Z) :
  emits batch_event (replay_file client opts arg exit_status).
Proof.
  unfold replay_file. apply emits_bind.
  - apply (emits_call (P := batch_event) (ReadBinaryProto arg));
      [apply batch_event_pool_closed | intro; reflexivity].
  - intros [snapshot|st].
    + apply emits_bind.
      * eapply emits_weaken; [|apply emits_ReplayComputation].
        apply replay_event_batch_event.
      * intros [[result|]|st].
        -- apply emits_bind; [|intros; apply emits_ret].
           eapply emits_weaken; [|apply emits_report].
           apply report_event_batch_event.
        -- apply emits_ret.
        -- apply emits_bind; [|intros; apply emits_ret].
           apply emits_print. reflexivity.
    + apply emits_bind; [|intros; apply emits_ret].
      apply emits_print. reflexivity.
Qed.

Lemma emits_replay_files (client : Client) (opts : Options)
    (args : list string) :
  forall exit_status,
    emits batch_event (replay_files client opts args exit_status).
Proof.
  induction args as [|arg rest IH]; intros exit_status; simpl.
  - apply emits_ret.
  - apply emits_bind; [apply emits_replay_file | intros; apply IH].
Qed.

Lemma batch_events_no_lifecycle (evs : list Event) :
  Forall (fun e => batch_event e = true) evs -> filter is_lifecycle evs = [].
Proof.
  intros Hall. induction Hall as [|e evs He _ IH]; simpl; [reflexivity|].
  destruct e as [[|] [] r| |]; simpl in *; try exact IH; discriminate.
Qed.

(** X8.  When RealMain returns, started without a pool, the client was
    obtained once, before anything else, and the local instances were
    destroyed once, after everything else: the trace is the call of
    LocalClientOrDie, then the events of the files, none of which gets or
    releases the client, then the call of DestroyLocalInstances. *)
Theorem client_is_obtained_first_and_released_last :
  forall (args : list string) (opts : Options) (w w' : World) (code : Z),
    pool w = [] ->
    RealMain args opts w = (Returned code, w') ->
    exists client evs,
      trace w'
      = trace w
        ++ [EvCall MainThread LocalClientOrDie (Some client)]
        ++ evs
        ++ [EvCall MainThread DestroyLocalInstances tt]
      /\ filter is_lifecycle evs = [].
Proof.
  intros args opts w w' code Hq Hmain. unfold RealMain in Hmain.
  unfold bind at 1 in Hmain. rewrite (call_quiet _ w Hq) in Hmain.
  destruct (fst (handle LocalClientOrDie (backend w))) as [client|];
    [|discriminate].
  apply bind_inv in Hmain.
  destruct Hmain as [[exit_status [w2 [Hfiles Hrest]]]|[_ Habs]];
    [|discriminate].
  edestruct replay_files_pool as [Hq2 _]; [|exact Hfiles|]; [reflexivity|].
  match type of Hfiles with
  | replay_files _ _ _ _ ?w1 = _ =>
      destruct (emits_replay_files client opts args EXIT_SUCCESS w1)
        as [evs [T F]]
  end.
  rewrite Hfiles in T. simpl in T.
  unfold bind at 1 in Hrest. rewrite (call_quiet _ w2 Hq2) in Hrest.
  inversion Hrest; subst code w'. clear Hrest. simpl.
  exists client, evs.
  split; [|apply batch_events_no_lifecycle; exact F].
  rewrite T, <- !app_assoc. simpl.
  assert (Hu : forall u : unit, u = tt) by (intros []; reflexivity).
  match goal with
  | |- context [@fst unit ?B ?x] => rewrite (Hu (@fst unit B x))
  end.
  reflexivity.
Qed.

(** *** Made up or recorded, not both *)
Lemma provision_event_pool_closed (fake : bool) :
  pool_closed (provision_event fake).
Proof. intros c r. reflexivity. Qed.

Lemma loop_event_provision_event (retrieving fake : bool) (e : Event) :
  loop_event retrieving e = true -> provision_event fake e = true.
Proof.
  destruct e as [[|] [] r| |]; simpl; intros E;
    try reflexivity; discriminate.
Qed.

Lemma emits_provision_arguments_by_path (module : HloSnapshot)
    (client : Client) (opts : Options) (computation : XlaComputation) :
  emits (provision_event (use_fake_data opts))
        (provision_arguments module client opts computation).
Proof.
  unfold provision_arguments. destruct (use_fake_data opts).
  - apply emits_bind.
    + apply (emits_call (P := provision_event true)
                        (MakeFakeArgumentsOrDie computation client));
        [apply provision_event_pool_closed | intro; reflexivity].
    + intros [made|]; [apply emits_ret | apply emits_die].
  - generalize (@nil GlobalData).
    induction (arguments module) as [|proto rest IH]; intros acc; simpl.
    + apply emits_ret.
    + destruct (CreateFromProto proto) as [literal|st]; [|apply emits_ret].
      apply emits_bind.
      * apply (emits_call (P := provision_event false)
                          (TransferToServer client literal));
          [apply provision_event_pool_closed | intro; reflexivity].
      * intros [data|st]; [apply IH | apply emits_ret].
Qed.

Lemma fake_events_no_transfer (evs : list Event) :
  Forall (fun e => provision_event true e = true) evs ->
  filter is_transfer_call evs = [].
Proof.
  intros F. induction F as [|e evs He _ IH]; simpl; [reflexivity|].
  destruct e as [[|] [] r| |]; simpl in *; try exact IH; discriminate.
Qed.

Lemma recorded_events_no_fake (evs : list Event) :
  Forall (fun e => provision_event false e = true) evs ->
  filter is_fake_arguments_call evs = [].
Proof.
  intros F. induction F as [|e evs He _ IH]; simpl; [reflexivity|].
  destruct e as [[|] [] r| |]; simpl in *; try exact IH; discriminate.
Qed.

(** X9.  The two ways to the arguments exclude each other for the whole
    replay, whatever its outcome: without [use_fake_data] the main thread
    never calls MakeFakeArgumentsOrDie, and with it the main thread never
    transfers a literal to the server. *)
Theorem arguments_are_made_up_or_recorded :
  forall (module : HloSnapshot) (client : Client) (opts : Options)
         (w : World),
  exists evs,
    trace (snd (ReplayComputation module client opts w)) = trace w ++ evs
    /\ (if use_fake_data opts
        then filter is_transfer_call evs = []
        else filter is_fake_arguments_call evs = []).
Proof.
  intros module client opts w.
  assert (Hemits : emits (provision_event (use_fake_data opts))
                         (ReplayComputation module client opts)).
  { unfold ReplayComputation, replay_setup.
    apply emits_bind.
    - apply emits_bind.
      + apply (emits_call (P := provision_event (use_fake_data opts))
                          (LoadSnapshot client module));
          [apply provision_event_pool_closed | intro; reflexivity].
      + intros [computation|st]; [|apply emits_ret].
        apply emits_bind; [apply emits_provision_arguments_by_path|].
        intros [arguments|st]; [|apply emits_ret].
        destruct (decide_infeed opts computation) as [[provide shape]|];
          [apply emits_ret | apply emits_die].
    - intros [s|st]; [|apply emits_ret].
      unfold replay_run. apply emits_bind.
      + destruct (provide_infeed s);
          [apply emits_Schedule; reflexivity | apply emits_ret].
      + intros _. apply emits_bind.
        * eapply emits_weaken; [|apply emits_execute_runs].
          apply loop_event_provision_event.
        * intros result. apply emits_bind; [|intros; apply emits_ret].
          apply emits_destroy_pool. apply provision_event_pool_closed. }
  destruct (Hemits w) as [evs [T F]]. exists evs. split; [exact T|].
  destruct (use_fake_data opts);
    [apply fake_events_no_transfer | apply recorded_events_no_fake];
    exact F.
Qed.

End ClientOfTheBatch.

(** ** What a file gets printed *)
Section ReportOfAFile.
Context {xla_types : XlaTypes} {xla_lib : XlaLib} {xla_backend : Backend}.
Local Open Scope replay_scope.

(** X10.  A file after which the process goes on got exactly one of five
    reports, and only the second changes the exit status: the "is not
    HloSnapshot" line on stderr, with the status of the read; the "error:"
    line on stderr, with the status the replay returned; nothing, when
    the replay returned no value; the line of the computed result on
    stdout; or that line followed by the "was" line of the recorded
    result, which then deserialized. *)
Theorem every_file_gets_one_report :
  forall (client : Client) (opts : Options) (arg : string)
         (exit_status code : Z) (w w' : World),
    replay_file client opts arg exit_status w = (Returned code, w') ->
    exists evs status w1,
      trace w' = trace w ++ evs
      /\ call (ReadBinaryProto arg) w = (Returned status, w1)
      /\ match status with
         | Err st =>
             printed evs = [(stderr, NotSnapshotLine arg (Status_ToString st))]
             /\ code = exit_status
         | Ok snapshot =>
             exists result_status w2,
               ReplayComputation snapshot client opts w1
               = (Returned result_status, w2)
               /\ match result_status with
                  | Err st =>
                      printed evs
                      = [(stderr, ErrorLine arg (Status_ToString st))]
                      /\ code = EXIT_FAILURE
                  | Ok None => printed evs = [] /\ code = exit_status
                  | Ok (Some result) =>
                      code = exit_status
                      /\ match SnapshotResult snapshot with
                         | None =>
                             printed evs
                             = [(stdout, computed_line arg snapshot result)]
                         | Some recorded =>
                             exists literal,
                               CreateFromProto recorded = Ok literal
                               /\ printed evs
                                  = [(stdout,
                                      computed_line arg snapshot result);
                                     (stdout,
                                      recorded_line recorded literal)]
                         end
                  end
         end.
Proof.
  intros client opts arg exit_status code w w' Hfile.
  unfold replay_file in Hfile. apply bind_inv in Hfile.
  destruct Hfile as [[status [w1 [Hread Hrest]]]|[_ Habs]]; [|discriminate].
  destruct (@call_returned_trace _ _ (ReadBinaryProto arg) _ _ _ Hread)
    as [pevs [Hall T]].
  pose proof (all_pool_printed Hall) as P0.
  destruct status as [snapshot|st].
  - apply bind_inv in Hrest.
    destruct Hrest as [[result_status [w2 [Hreplay Hrest]]]|[_ Habs]];
      [|discriminate].
    destruct (emits_ReplayComputation snapshot client opts w1)
      as [evs1 [T1 F1]].
    rewrite Hreplay in T1. simpl in T1.
    pose proof (replay_events_printed _ F1) as P1.
    destruct result_status as [[result|]|st].
    + unfold report, bind, print, ret, die in Hrest. simpl in Hrest.
      destruct (SnapshotResult snapshot) as [recorded|] eqn:Hrec.
      * destruct (CreateFromProto recorded) as [literal|st] eqn:Hlit;
          [|discriminate].
        inversion Hrest; subst code w'. clear Hrest. simpl.
        eexists. exists (Ok snapshot), w1.
        split; [rewrite T1, T, <- !app_assoc; reflexivity|].
        split; [exact Hread|]. exists (Ok (Some result)), w2.
        split; [exact Hreplay|]. split; [reflexivity|]. rewrite Hrec.
        exists literal. split; [exact Hlit|].
        rewrite !printed_app, P0, P1. reflexivity.
      * inversion Hrest; subst code w'. clear Hrest. simpl.
        eexists. exists (Ok snapshot), w1.
        split; [rewrite T1, T, <- !app_assoc; reflexivity|].
        split; [exact Hread|]. exists (Ok (Some result)), w2.
        split; [exact Hreplay|]. split; [reflexivity|]. rewrite Hrec.
        rewrite !printed_app, P0, P1. reflexivity.
    + inversion Hrest; subst code w2. clear Hrest.
      eexists. exists (Ok snapshot), w1.
      split; [rewrite T1, T, <- !app_assoc; reflexivity|].
      split; [exact Hread|]. exists (Ok None), w'.
      split; [exact Hreplay|].
      rewrite !printed_app, P0, P1. auto.
    + unfold bind, print, ret in Hrest. inversion Hrest; subst code w'.
      clear Hrest. simpl.
      eexists. exists (Ok snapshot), w1.
      split; [rewrite T1, T, <- !app_assoc; reflexivity|].
      split; [exact Hread|]. exists (Err st), w2.
      split; [exact Hreplay|].
      rewrite !printed_app, P0, P1. auto.
  - unfold bind, print, ret in Hrest. inversion Hrest; subst code w'.
    clear Hrest. simpl.
    eexists. exists (Err st), w1.
    split; [rewrite T, <- !app_assoc; reflexivity|].
    split; [exact Hread|].
    rewrite !printed_app, P0. auto.
Qed.

End ReportOfAFile.

(** ** The feed of a replay that returns, whatever the client answers *)
Section FeedReturned.
Context {xla_types : XlaTypes} {xla_lib : XlaLib} {xla_backend : Backend}.
Local Open Scope replay_scope.

Variables (client : Client) (opts : Options) (infeed_shape : Shape).

Lemma feed_pushing_step (data : Literal) (k : nat) (evs : list Event) :
  (made_event infeed_shape data
   :: repeat (pushed_event client data) (Z.to_nat (num_infeeds opts) - S k))
    ++ pushed_event client data :: evs
  = (made_event infeed_shape data
     :: repeat (pushed_event client data) (Z.to_nat (num_infeeds opts) - k))
      ++ evs
  \/ (Z.to_nat (num_infeeds opts) < S k)%nat.
Proof.
  destruct (Nat.lt_ge_cases (Z.to_nat (num_infeeds opts)) (S k)) as [Hlt|Hge];
    [right; exact Hlt | left].
  replace (Z.to_nat (num_infeeds opts) - k)%nat
    with (S (Z.to_nat (num_infeeds opts) - S k))%nat by lia.
  change (repeat (pushed_event client data)
                 (S (Z.to_nat (num_infeeds opts) - S k)))
    with (pushed_event client data
          :: repeat (pushed_event client data)
                    (Z.to_nat (num_infeeds opts) - S k)).
  rewrite repeat_cons. simpl. rewrite <- app_assoc. reflexivity.
Qed.

(** The pool thread on the feed: it fails its check, or the feed has gone
    on, or the failing check is what is left in the pool. *)
Lemma pool_run_feed_any (n : nat) :
  forall fed b q es,
    FeedOrFailed client opts infeed_shape fed q es ->
    exists alive b' q' evs,
      pool_run n b q = (alive, b', q', evs)
      /\ (alive = true ->
          FeedOrFailed client opts infeed_shape fed q' (es ++ evs)).
Proof.
  induction n as [|n IH]; intros fed b q es Hst.
  - exists true, b, q, []. rewrite app_nil_r. auto.
  - destruct Hst as [Hst| ->].
    + destruct Hst as [| |data k Hk|data].
      * exists true, b, [], []. split; [reflexivity|].
        intros _. left. constructor.
      * simpl.
        destruct (handle (MakeFakeLiteral infeed_shape) b) as [reply b1].
        destruct reply as [data|st].
        -- destruct (IH true b1
                        [push_infeeds client data
                                      (Z.to_nat (num_infeeds opts))]
                        [made_event infeed_shape data])
             as [alive [b' [q' [evs [E St]]]]].
           { left.
             pose proof (FeedPushing client opts infeed_shape data
                           (k := Z.to_nat (num_infeeds opts)) (le_n _)) as P.
             rewrite Nat.sub_diag in P. exact P. }
           rewrite E. exists alive, b', q'. eexists.
           split; [reflexivity | exact St].
        -- destruct (IH true b1 [TFatal] [] (or_intror eq_refl))
             as [alive [b' [q' [evs [E St]]]]].
           rewrite E. exists alive, b', q'. eexists.
           split; [reflexivity|]. intros Ha. right.
           destruct n; simpl in E; inversion E; subst;
             [reflexivity | discriminate].
      * destruct k as [|k].
        -- simpl.
           destruct (IH true b []
                        (made_event infeed_shape data
                         :: repeat (pushed_event client data)
                                   (Z.to_nat (num_infeeds opts))))
             as [alive [b' [q' [evs [E St]]]]].
           { left. constructor. }
           rewrite E. exists alive, b', q', evs. split; [reflexivity|].
           rewrite Nat.sub_0_r. exact St.
        -- simpl.
           destruct (handle (TransferToInfeed client data) b) as [reply b1].
           destruct reply as [[]|st].
           ++ destruct (IH true b1 [push_infeeds client data k]
                           (made_event infeed_shape data
                            :: repeat (pushed_event client data)
                                      (Z.to_nat (num_infeeds opts) - k)))
                as [alive [b' [q' [evs [E St]]]]].
              { left. constructor. lia. }
              rewrite E. exists alive, b', q'. eexists.
              split; [reflexivity|]. intros Ha.
              destruct (feed_pushing_step data k evs) as [Heq|Hlt]; [|lia].
              pose proof (St Ha) as P. rewrite <- Heq in P. exact P.
           ++ destruct (IH true b1 [TFatal] [] (or_intror eq_refl))
                as [alive [b' [q' [evs [E St]]]]].
              rewrite E. exists alive, b', q'. eexists.
              split; [reflexivity|]. intros Ha. right.
              destruct n; simpl in E; inversion E; subst;
                [reflexivity | discriminate].
      * exists true, b, [], []. rewrite app_nil_r.
        split; [reflexivity|]. intros _. left. constructor.
    + simpl. exists false, b, [TFatal], [].
      split; [reflexivity | discriminate].
Qed.

Lemma thread_run_push_any (data : Literal) (k : nat) :
  forall b b' evs,
    thread_run (push_infeeds client data k) b = (true, b', evs) ->
    evs = repeat (pushed_event client data) k.
Proof.
  induction k as [|k IH]; intros b b' evs Hrun; simpl in Hrun.
  - inversion Hrun. reflexivity.
  - destruct (handle (TransferToInfeed client data) b) as [reply b1].
    destruct reply as [[]|st].
    + destruct (thread_run (push_infeeds client data k) b1)
        as [[alive b2] evs2] eqn:Hrec.
      inversion Hrun; subst. rewrite (IH _ _ _ Hrec). reflexivity.
    + simpl in Hrun. inversion Hrun.
Qed.

(** Waiting for the pool, when the wait ends well, ends the feed. *)
Lemma pool_drain_feed_any :
  forall fed b q es b' evs,
    FeedOrFailed client opts infeed_shape fed q es ->
    pool_drain q b = (true, b', evs) ->
    FeedState client opts infeed_shape fed [] (es ++ evs).
Proof.
  intros fed b q es b' evs [Hst| ->] Hd; [|simpl in Hd; discriminate].
  destruct Hst as [| |data k Hk|data]; simpl in Hd.
  - inversion Hd. constructor.
  - destruct (handle (MakeFakeLiteral infeed_shape) b) as [reply b1].
    destruct reply as [data|st]; [|simpl in Hd; discriminate].
    destruct (thread_run (push_infeeds client data
                                       (Z.to_nat (num_infeeds opts))) b1)
      as [[alive b2] evs2] eqn:Hrun.
    destruct alive; [|discriminate]. inversion Hd; subst.
    rewrite (thread_run_push_any _ _ _ Hrun), app_nil_r. simpl. constructor.
  - destruct (thread_run (push_infeeds client data k) b)
      as [[alive b2] evs2] eqn:Hrun.
    destruct alive; [|discriminate]. inversion Hd; subst.
    rewrite (thread_run_push_any _ _ _ Hrun), app_nil_r. simpl.
    rewrite <- repeat_app.
    replace (Z.to_nat (num_infeeds opts) - k + k)%nat
      with (Z.to_nat (num_infeeds opts)) by lia.
    constructor.
  - inversion Hd. rewrite app_nil_r. constructor.
Qed.

Lemma call_feed_any (c : Call) (w w' : World) (r : Reply c) fed es :
  FeedOrFailed client opts infeed_shape fed (pool w) es ->
  call c w = (Returned r, w') ->
  exists pevs,
    all_pool pevs
    /\ trace w' = trace w ++ pevs ++ [EvCall MainThread c r]
    /\ FeedOrFailed client opts infeed_shape fed (pool w') (es ++ pevs).
Proof.
  intros Hst Hcall. unfold call in Hcall.
  destruct (pool_run_feed_any (hd 0%nat (schedule w)) (backend w) Hst)
    as [alive [b1 [q1 [pevs [E St]]]]].
  rewrite E in Hcall. destruct alive; [|discriminate].
  destruct (handle c b1) as [r0 b2].
  assert (Hw : w' = {| backend := b2; pool := q1;
                       schedule := tl (schedule w);
                       trace := trace w ++ pevs ++ [EvCall MainThread c r0] |}).
  { inversion Hcall. reflexivity. }
  assert (Hr : r0 = r).
  { apply (f_equal (fun p => match fst p with
                             | Returned x => x
                             | Aborted => r0
                             end)) in Hcall. exact Hcall. }
  subst r0 w'. exists pevs.
  split; [eapply pool_run_all_pool; exact E|].
  split; [reflexivity | exact (St eq_refl)].
Qed.

Lemma execute_runs_feed_any (computation : XlaComputation)
    (arguments : list GlobalData) (remaining : nat) :
  forall i result w r w' fed es,
    FeedOrFailed client opts infeed_shape fed (pool w) es ->
    execute_runs client opts computation arguments remaining i result w
    = (Returned r, w') ->
    exists evs,
      trace w' = trace w ++ evs
      /\ FeedOrFailed client opts infeed_shape fed (pool w')
                      (es ++ pool_events evs).
Proof.
  induction remaining as [|remaining IH];
    intros i result w r w' fed es Hst Hrun; simpl in Hrun.
  - inversion Hrun; subst. exists []. simpl. rewrite !app_nil_r. auto.
  - destruct (print_result opts).
    + apply bind_inv in Hrun.
      destruct Hrun as [[reply [w1 [Hcall Hrest]]]|[_ Habs]]; [|discriminate].
      destruct (@call_feed_any
                  (ExecuteAndTransfer client computation arguments
                                      (run_options opts i))
                  _ _ _ _ _ Hst Hcall) as [pevs [Hall [T St]]].
      destruct reply as [v|st].
      * destruct (IH _ _ _ _ _ _ _ St Hrest) as [evs [T' St']].
        eexists. split; [rewrite T', T, <- !app_assoc; reflexivity|].
        rewrite !pool_events_app, (all_pool_pool_events Hall). simpl.
        rewrite <- app_assoc in St'. exact St'.
      * inversion Hrest; subst r w'. eexists. split; [exact T|].
        rewrite !pool_events_app, (all_pool_pool_events Hall). simpl.
        rewrite app_nil_r. exact St.
    + apply bind_inv in Hrun.
      destruct Hrun as [[reply [w1 [Hcall Hrest]]]|[_ Habs]]; [|discriminate].
      destruct (@call_feed_any
                  (Execute client computation arguments (run_options opts i))
                  _ _ _ _ _ Hst Hcall) as [pevs [Hall [T St]]].
      destruct reply as [v|st].
      * destruct (IH _ _ _ _ _ _ _ St Hrest) as [evs [T' St']].
        eexists. split; [rewrite T', T, <- !app_assoc; reflexivity|].
        rewrite !pool_events_app, (all_pool_pool_events Hall). simpl.
        rewrite <- app_assoc in St'. exact St'.
      * inversion Hrest; subst r w'. eexists. split; [exact T|].
        rewrite !pool_events_app, (all_pool_pool_events Hall). simpl.
        rewrite app_nil_r. exact St.
Qed.

End FeedReturned.

Section FeedOfAReturnedReplay.
Context {xla_types : XlaTypes} {xla_lib : XlaLib} {xla_backend : Backend}.
Local Open Scope replay_scope.

Lemma replay_run_feed_any (client : Client) (opts : Options)
    (s : ReplaySetup) (w w' : World) (r : StatusOr (option Literal)) :
  pool w = [] ->
  replay_run client opts s w = (Returned r, w') ->
  exists evs,
    trace w' = trace w ++ evs
    /\ FeedState client opts (infeed_shape s) (provide_infeed s) []
                 (pool_events evs).
Proof.
  intros Hq Hrun. unfold replay_run in Hrun.
  set (closure := infeed_closure opts (infeed_shape s) client) in *.
  apply bind_inv in Hrun.
  destruct Hrun as [[u [w0 [Hstart Hrun]]]|[_ Habs]]; [|discriminate].
  assert (H0 : trace w0
               = trace w ++ (if provide_infeed s then [EvSchedule closure]
                             else [])
               /\ FeedOrFailed client opts (infeed_shape s) (provide_infeed s)
                               (pool w0) []).
  { destruct (provide_infeed s); inversion Hstart; subst; simpl.
    - split; [reflexivity|]. rewrite Hq. left. constructor.
    - split; [rewrite app_nil_r; reflexivity|]. rewrite Hq. left.
      constructor. }
  destruct H0 as [T0 St0].
  apply bind_inv in Hrun.
  destruct Hrun as [[result [w1 [Hruns Hrun]]]|[_ Habs]]; [|discriminate].
  destruct (execute_runs_feed_any _ _ _ _ _ _ St0 Hruns)
    as [evs1 [T1 St1]].
  apply bind_inv in Hrun.
  destruct Hrun as [[u' [w2 [Hjoin Hrun]]]|[_ Habs]]; [|discriminate].
  inversion Hrun; subst r w'. clear Hrun.
  unfold destroy_pool in Hjoin.
  destruct (pool_drain (pool w1) (backend w1)) as [[alive b2] evs2] eqn:Hd.
  destruct alive; [|discriminate].
  assert (St2 : FeedState client opts (infeed_shape s) (provide_infeed s) []
                         (([] ++ pool_events evs1) ++ evs2))
    by (eapply pool_drain_feed_any; eassumption).
  pose proof (pool_drain_all_pool _ _ Hd) as Hall.
  inversion Hjoin; subst w2. simpl.
  exists ((if provide_infeed s then [EvSchedule closure] else [])
          ++ evs1 ++ evs2).
  split; [rewrite T1, T0, <- !app_assoc; reflexivity|].
  rewrite !pool_events_app, (all_pool_pool_events Hall).
  replace (pool_events (if provide_infeed s then [EvSchedule closure]
                        else [])) with (@nil Event)
    by (destruct (provide_infeed s); reflexivity).
  exact St2.
Qed.

(** X11.  A replay that returns, with a value or with the status of a
    failed run, has fed the infeed completely, whatever the client answers
    and whatever the interleaving: when the setup decided to feed, the pool
    thread made one fake literal and pushed it [num_infeeds] times, every
    one of these calls answered OK; when it decided not to feed, the pool
    thread did nothing. *)
Theorem returned_replay_has_fed_completely :
  forall (module : HloSnapshot) (client : Client) (opts : Options)
         (w w1 w' : World) (s : ReplaySetup)
         (r : StatusOr (option Literal)),
    pool w = [] ->
    replay_setup module client opts w = (Returned (Ok s), w1) ->
    ReplayComputation module client opts w = (Returned r, w') ->
    exists evs,
      trace w' = trace w ++ evs
      /\ if provide_infeed s
         then exists data,
             pool_events evs
             = made_event (infeed_shape s) data
               :: repeat (pushed_event client data)
                         (Z.to_nat (num_infeeds opts))
         else pool_events evs = [].
Proof.
  intros module client opts w w1 w' s r Hq Hsetup Hreplay.
  destruct (quiet_replay_setup module client opts w Hq)
    as [Hq1 [evs0 [T0 P0]]].
  rewrite Hsetup in Hq1, T0. simpl in Hq1, T0.
  unfold ReplayComputation in Hreplay.
  erewrite bind_returned in Hreplay by exact Hsetup.
  destruct (replay_run_feed_any _ _ _ _ Hq1 Hreplay) as [evs [T St]].
  exists (evs0 ++ evs).
  split; [rewrite T, T0, app_assoc; reflexivity|].
  rewrite pool_events_app, P0. simpl.
  destruct (provide_infeed s).
  - inversion St as [| | |data Hfed Hpool Hevs]. exists data. reflexivity.
  - inversion St. reflexivity.
Qed.

(** X12.  A replay that returns OK returns no value exactly when the
    result is not to be printed or no run is asked for: with [print_result]
    set and [num_runs] at least one, a successful replay always hands a
    literal to [RealMain]. *)
Theorem no_value_only_without_print_or_runs :
  forall (module : HloSnapshot) (client : Client) (opts : Options)
         (w w1 w' : World) (s : ReplaySetup) (final : option Literal),
    replay_setup module client opts w = (Returned (Ok s), w1) ->
    ReplayComputation module client opts w = (Returned (Ok final), w') ->
    (final = None <-> print_result opts = false \/ num_runs opts <= 0).
Proof.
  intros module client opts w w1 w' s final Hsetup Hreplay.
  unfold ReplayComputation in Hreplay.
  erewrite bind_returned in Hreplay by exact Hsetup.
  destruct (replay_run_returned _ _ _ _ Hreplay)
    as [runs [evs [T [Hq [Hr [Hm [Hl Hf]]]]]]].
  subst final. split.
  - intros Hnone.
    destruct (print_result opts) eqn:Hp; [right | left; reflexivity].
    destruct (Z_le_gt_dec (num_runs opts) 0) as [Hle|Hgt]; [exact Hle|].
    exfalso.
    destruct (exists_last (l := runs)) as [earlier [last_run Hruns]].
    { intros Hnil. rewrite Hnil in Hl. simpl in Hl. lia. }
    subst runs. rewrite (@last_run_value_last _ _ _ _ Hr) in Hnone.
    apply Forall_app in Hr. destruct Hr as [_ Hlast].
    inversion Hlast as [|x l Hx _]; subst.
    destruct last_run; simpl in *; discriminate.
  - intros [Hp|Hn].
    + rewrite Hp in Hr. apply (@last_run_value_not_retrieved _ _ Hr).
    + assert (Hnil : runs = []).
      { destruct runs; [reflexivity|]. simpl in Hl. lia. }
      rewrite Hnil. reflexivity.
Qed.

End FeedOfAReturnedReplay.

(** * The further properties on the small clients *)
Section MoreToyRuns.
#[local] Existing Instance toy_types.
#[local] Existing Instance toy_lib.
#[local] Existing Instance toy_backend.

(** X1 on three runs of the program that fails to execute: the first run
    fails, and is the only one. *)
Lemma first_execution_error_is_returned_witness :
  exists runs evs,
    trace (snd (ReplayComputation snap_crash toy_client (toy_options 3 true)
                                  (toy_world [])))
    = trace (snd (replay_setup snap_crash toy_client (toy_options 3 true)
                               (toy_world [])))
      ++ evs
    /\ filter is_execute evs
       = run_events toy_client (toy_options 3 true)
                    (toy_computation snap_crash) [] 0 runs
         ++ [failed_run_event toy_client (toy_options 3 true)
                              (toy_computation snap_crash) []
                              (Z.of_nat (List.length runs))
                              "execution failed"]
    /\ Z.of_nat (List.length runs) < 3
    /\ pool (snd (ReplayComputation snap_crash toy_client (toy_options 3 true)
                                    (toy_world [])))
       = [].
Proof.
  apply (@first_execution_error_is_returned toy_types toy_lib toy_backend
           snap_crash toy_client (toy_options 3 true) (toy_world [])
           (snd (replay_setup snap_crash toy_client (toy_options 3 true)
                              (toy_world [])))
           (snd (ReplayComputation snap_crash toy_client (toy_options 3 true)
                                   (toy_world [])))
           {| computation := toy_computation snap_crash;
              execute_arguments := [];
              provide_infeed := false;
              infeed_shape := "" |}
           "execution failed").
  - reflexivity.
  - reflexivity.
Defined.

(** X2 on two runs of the plain program. *)
Lemma success_means_every_run_succeeded_witness :
  exists runs evs,
    trace (snd (ReplayComputation snap_plain toy_client (toy_options 2 true)
                                  (toy_world [])))
    = trace (snd (replay_setup snap_plain toy_client (toy_options 2 true)
                               (toy_world [])))
      ++ evs
    /\ filter is_execute evs
       = run_events toy_client (toy_options 2 true)
                    (toy_computation snap_plain) [] 0 runs
    /\ List.length runs = 2%nat
    /\ Forall (fun x => run_retrieves x = true) runs
    /\ Some "run2" = last_run_value None runs.
Proof.
  apply (@success_means_every_run_succeeded toy_types toy_lib toy_backend
           snap_plain toy_client (toy_options 2 true) (toy_world [])
           (snd (replay_setup snap_plain toy_client (toy_options 2 true)
                              (toy_world [])))
           (snd (ReplayComputation snap_plain toy_client (toy_options 2 true)
                                   (toy_world [])))
           {| computation := toy_computation snap_plain;
              execute_arguments := [];
              provide_infeed := false;
              infeed_shape := "" |}
           (Some "run2")).
  - reflexivity.
  - reflexivity.
Defined.

(** X3 on three runs with xla_hlo_profile_last_run: the options are
    default, default, profiling. *)
Lemma profile_only_on_the_last_run_witness :
  exists evs,
    trace (snd (ReplayComputation snap_plain toy_client (toy_options 3 true)
                                  (toy_world [])))
    = trace (snd (replay_setup snap_plain toy_client (toy_options 3 true)
                               (toy_world [])))
      ++ evs
    /\ options_used evs = [false; false; true].
Proof.
  apply (@profile_only_on_the_last_run toy_types toy_lib toy_backend
           snap_plain toy_client (toy_options 3 true) (toy_world [])
           (snd (replay_setup snap_plain toy_client (toy_options 3 true)
                              (toy_world [])))
           (snd (ReplayComputation snap_plain toy_client (toy_options 3 true)
                                   (toy_world [])))
           {| computation := toy_computation snap_plain;
              execute_arguments := [];
              provide_infeed := false;
              infeed_shape := "" |}
           (Some "run3")).
  - simpl. lia.
  - reflexivity.
  - reflexivity.
Defined.

(** X6 on a batch of a plain program and a program with an infeed. *)
Lemma feeds_do_not_outlive_their_replay_witness :
  pool (snd (RealMain ["plain.pb"; "fed.pb"] (toy_infeed_options 2)
                      (toy_world [0; 0; 1]%nat)))
  = []
  /\ exists evs,
      trace (snd (RealMain ["plain.pb"; "fed.pb"] (toy_infeed_options 2)
                           (toy_world [0; 0; 1]%nat)))
      = trace (toy_world [0; 0; 1]%nat) ++ evs
      /\ (List.length (filter is_schedule evs) <= 2)%nat.
Proof.
  apply (@feeds_do_not_outlive_their_replay toy_types toy_lib toy_backend
           ["plain.pb"; "fed.pb"] (toy_infeed_options 2)
           (toy_world [0; 0; 1]%nat)
           (snd (RealMain ["plain.pb"; "fed.pb"] (toy_infeed_options 2)
                          (toy_world [0; 0; 1]%nat)))
           EXIT_SUCCESS).
  - reflexivity.
  - reflexivity.
Defined.

(** X7 on three recorded arguments, the second of which does not
    deserialize: one transfer is made. *)
Lemma first_malformed_argument_stops_provisioning_witness :
  exists handles w',
    provision_arguments snap_corrupt_argument toy_client (toy_options 1 true)
                        (toy_computation snap_corrupt_argument) (toy_world [])
    = (Returned (Err "corrupt literal"), w')
    /\ List.length handles = 1%nat
    /\ trace w'
       = trace (toy_world []) ++ transfer_events toy_client ["1"] handles.
Proof.
  apply (@first_malformed_argument_stops_provisioning
           toy_types toy_lib toy_backend
           snap_corrupt_argument toy_client (toy_options 1 true)
           (toy_computation snap_corrupt_argument) (toy_world [])
           ["1"] ["3"] "corrupt" ["1"] "corrupt literal").
  - reflexivity.
  - exact toy_transfers_succeed.
  - reflexivity.
  - reflexivity.
  - repeat constructor.
  - reflexivity.
Defined.

(** X8 on a batch of two files. *)
Lemma client_is_obtained_first_and_released_last_witness :
  exists client evs,
    trace (snd (RealMain ["plain.pb"; "nothere.pb"] (toy_options 1 true)
                         (toy_world [])))
    = trace (toy_world [])
      ++ [EvCall MainThread LocalClientOrDie (Some client)]
      ++ evs
      ++ [EvCall MainThread DestroyLocalInstances tt]
    /\ filter is_lifecycle evs = [].
Proof.
  apply (@client_is_obtained_first_and_released_last
           toy_types toy_lib toy_backend
           ["plain.pb"; "nothere.pb"] (toy_options 1 true) (toy_world [])
           (snd (RealMain ["plain.pb"; "nothere.pb"] (toy_options 1 true)
                          (toy_world [])))
           EXIT_SUCCESS).
  - reflexivity.
  - reflexivity.
Defined.

(** X10 on the file of the program that fails to execute: the "error:"
    line, and the failure code. *)
Lemma every_file_gets_one_report_witness :
  exists evs status w1,
    trace (snd (replay_file toy_client (toy_options 1 true) "crash.pb"
                            EXIT_SUCCESS (toy_world [])))
    = trace (toy_world []) ++ evs
    /\ call (ReadBinaryProto "crash.pb") (toy_world [])
       = (Returned status, w1)
    /\ match status with
       | Err st =>
           printed evs = [(stderr, NotSnapshotLine "crash.pb" st)]
           /\ EXIT_FAILURE = EXIT_SUCCESS
       | Ok snapshot =>
           exists result_status w2,
             ReplayComputation snapshot toy_client (toy_options 1 true) w1
             = (Returned result_status, w2)
             /\ match result_status with
                | Err st =>
                    printed evs = [(stderr, ErrorLine "crash.pb" st)]
                    /\ EXIT_FAILURE = EXIT_FAILURE
                | Ok None => printed evs = [] /\ EXIT_FAILURE = EXIT_SUCCESS
                | Ok (Some result) =>
                    EXIT_FAILURE = EXIT_SUCCESS
                    /\ match SnapshotResult snapshot with
                       | None =>
                           printed evs
                           = [(stdout,
                               computed_line "crash.pb" snapshot result)]
                       | Some recorded =>
                           exists literal,
                             CreateFromProto recorded = Ok literal
                             /\ printed evs
                                = [(stdout,
                                    computed_line "crash.pb" snapshot result);
                                   (stdout, recorded_line recorded literal)]
                       end
                end
       end.
Proof.
  apply (@every_file_gets_one_report toy_types toy_lib toy_backend
           toy_client (toy_options 1 true) "crash.pb" EXIT_SUCCESS
           EXIT_FAILURE (toy_world [])
           (snd (replay_file toy_client (toy_options 1 true) "crash.pb"
                             EXIT_SUCCESS (toy_world [])))).
  reflexivity.
Defined.

(** X11 on the program that fails to execute, fed with an infeed of a
    given shape: the replay returns the error of its only run, and the
    three pushes were made all the same. *)
Lemma returned_replay_has_fed_completely_witness :
  exists evs,
    trace (snd (ReplayComputation snap_crash toy_client
                                  (toy_shape_options "f32[2]")
                                  (toy_world [0; 1]%nat)))
    = trace (toy_world [0; 1]%nat) ++ evs
    /\ exists data,
        pool_events evs
        = made_event "f32[2]" data
          :: repeat (pushed_event toy_client data) 3.
Proof.
  apply (@returned_replay_has_fed_completely toy_types toy_lib toy_backend
           snap_crash toy_client (toy_shape_options "f32[2]")
           (toy_world [0; 1]%nat)
           (snd (replay_setup snap_crash toy_client
                              (toy_shape_options "f32[2]")
                              (toy_world [0; 1]%nat)))
           (snd (ReplayComputation snap_crash toy_client
                                   (toy_shape_options "f32[2]")
                                   (toy_world [0; 1]%nat)))
           {| computation := toy_computation snap_crash;
              execute_arguments := [];
              provide_infeed := true;
              infeed_shape := "f32[2]" |}
           (@Err toy_types _ "execution failed")).
  - reflexivity.
  - reflexivity.
  - reflexivity.
Defined.

(** X12 on two runs whose result is not retrieved: no value. *)
Lemma no_value_only_without_print_or_runs_witness :
  @None Literal = None <-> false = false \/ 2 <= 0.
Proof.
  apply (@no_value_only_without_print_or_runs toy_types toy_lib toy_backend
           snap_plain toy_client (toy_options 2 false) (toy_world [])
           (snd (replay_setup snap_plain toy_client (toy_options 2 false)
                              (toy_world [])))
           (snd (ReplayComputation snap_plain toy_client (toy_options 2 false)
                                   (toy_world [])))
           {| computation := toy_computation snap_plain;
              execute_arguments := [];
              provide_infeed := false;
              infeed_shape := "" |}
           None).
  - reflexivity.
  - reflexivity.
Defined.

End MoreToyRuns.

Section FaultyRuns.
#[local] Existing Instance toy_types.
#[local] Existing Instance toy_lib.
#[local] Existing Instance faulty_backend.

(** X4 on the program whose infeed has the shape no literal can be made
    for: the runs succeed, and the process is aborted. *)
Lemma failed_fake_literal_aborts_witness :
  fst (ReplayComputation snap_infeed3 toy_client (toy_infeed_options 3)
                         (faulty_world [0; 0; 1]%nat))
  = Aborted.
Proof.
  refine (proj1
           (@failed_fake_literal_aborts toy_types toy_lib faulty_backend
              snap_infeed3 toy_client (toy_infeed_options 3)
              (faulty_world [0; 0; 1]%nat)
              (snd (replay_setup snap_infeed3 toy_client
                                 (toy_infeed_options 3)
                                 (faulty_world [0; 0; 1]%nat)))
              {| computation := toy_computation snap_infeed3;
                 execute_arguments := [];
                 provide_infeed := true;
                 infeed_shape := "f32[3]" |}
              _ _ _ _)).
  - reflexivity.
  - intros b. exists "cannot make literal". reflexivity.
  - reflexivity.
  - reflexivity.
Defined.

(** X5 on the program with an infeed, on the client whose infeed refuses
    every transfer. *)
Lemma failed_infeed_transfer_aborts_witness :
  fst (ReplayComputation snap_infeed toy_client (toy_infeed_options 5)
                         (faulty_world [0; 0; 2]%nat))
  = Aborted.
Proof.
  refine (proj1
            (@failed_infeed_transfer_aborts toy_types toy_lib faulty_backend
               snap_infeed toy_client (toy_infeed_options 5)
               (faulty_world [0; 0; 2]%nat)
               (snd (replay_setup snap_infeed toy_client
                                  (toy_infeed_options 5)
                                  (faulty_world [0; 0; 2]%nat)))
               {| computation := toy_computation snap_infeed;
                  execute_arguments := [];
                  provide_infeed := true;
                  infeed_shape := "f32[2]" |}
               _ _ _ _ _)).
  - reflexivity.
  - simpl. lia.
  - intros data b. exists "infeed refused". reflexivity.
  - reflexivity.
  - reflexivity.
Defined.

End FaultyRuns.
